(** * Cobra Shot cooldown-reduction accounting

    A shallow embedding of the Beast Mastery [CobraShot] analyzer
    (src/parser/hunter/beastmastery/modules/spells/CobraShot.tsx).

    The analyzer listens to the selected player's Cobra Shot casts.  For
    each cast it queries the shared [SpellUsable] module for the state of
    Kill Command's cooldown, asks the [GlobalCooldown] module for the
    duration of Cobra Shot's global cooldown, possibly commands a cooldown
    reduction, updates four running totals and annotates the event.

    Modelling choices.
    - Durations and totals are JavaScript numbers holding milliseconds;
      they are modelled as [Z].  The efficiency ratio is modelled as a
      rational [Q]; the figure printed in the low-focus message is
      computed in binary64, as the code computes it.
    - The class mutates [this], the event and the shared modules.  The
      embedding passes all three explicitly: the handler takes the
      counters, the state of the shared modules and the event, and
      returns the three after the call together with the list of
      [reduceCooldown] commands it issued.
    - [SpellUsable] and [GlobalCooldown] are collaborators of the
      analyzer; they are interfaces here (type classes over the state of
      the shared modules).  The constants of ../../constants, the spell
      ids of common/SPELLS and the resource id of game/RESOURCE_TYPES are
      fields of a [Constants] class. *)

From Stdlib Require Import ZArith QArith List String Bool Lia DecimalString.
From Stdlib Require Import Qround Ascii Permutation Sorted Lqa.
From Stdlib Require DecimalZ DecimalPos.
Import ListNotations.
Local Open Scope Z_scope.

(** ** JavaScript primitives used by the handler *)

Module JS.

(** [String(n)] for an integral number. *)
Definition Number_toString (n : Z) : string :=
  NilZero.string_of_int (Z.to_int n).

(** [x.toFixed(1)]: the sign, then the magnitude rounded to the nearest
    tenth (the larger candidate on a tie), with exactly one decimal.
    Taken on the exact quotient, for magnitudes below 1e21. *)
Definition toFixed1 (x : Q) : string :=
  let a := Z.abs (Qnum x) in
  let d := Zpos (Qden x) in
  let n := (20 * a + d) / (2 * d) in
  let sign := if Qnum x <? 0 then "-"%string else EmptyString in
  let whole := Number_toString (n / 10) in
  let tenth := Number_toString (n mod 10) in
  (sign ++ whole ++ "." ++ tenth)%string.

End JS.

(** ** Binary64 arithmetic

    The results of [+], [*] and [/] on JavaScript numbers are the exact
    results rounded to the nearest binary64 value, ties to the even
    significand; a result too large for binary64 is an infinity.  Finite
    values are kept as the rationals they are. *)

Module Double.

Inductive t :=
| Fin (q : Q)
| Inf (negative : bool).

(** [n / d] rounded to the nearest integer, ties to even
    ([0 <= n], [0 < d]). *)
Definition nearestEven (n d : Z) : Z :=
  let q := n / d in
  let r := n mod d in
  match 2 * r ?= d with
  | Lt => q
  | Gt => q + 1
  | Eq => if Z.even q then q else q + 1
  end.

(** The exponent [e] with [2^e <= n / d < 2^(e+1)] ([0 < n], [0 < d]). *)
Definition binade (n d : Z) : Z :=
  let k := Z.log2 n - Z.log2 d in
  let below := if 0 <=? k then n <? d * 2 ^ k else n * 2 ^ (- k) <? d in
  if below then k - 1 else k.

(** The binary64 value nearest to [x]: a significand of 53 bits at the
    exponent of [x], no exponent below -1074 (subnormal numbers), and an
    infinity from 2^1024 on. *)
Definition nearest (x : Q) : t :=
  let n := Z.abs (Qnum x) in
  let d := Zpos (Qden x) in
  let negative := Qnum x <? 0 in
  if n =? 0 then Fin 0
  else
    let e := Z.max (binade n d - 52) (-1074) in
    if 0 <=? e then
      let m := nearestEven n (d * 2 ^ e) in
      if 2 ^ 1024 <=? m * 2 ^ e then Inf negative
      else Fin (inject_Z ((if negative then - m else m) * 2 ^ e))
    else
      let m := nearestEven (n * 2 ^ (- e)) d in
      Fin (Qmake (if negative then - m else m) (Z.to_pos (2 ^ (- e)))).

(** [x + y] for a finite [x]. *)
Definition add (x : Q) (y : t) : t :=
  match y with
  | Fin q => nearest (x + q)
  | Inf negative => Inf negative
  end.

(** [d.toFixed(1)]. *)
Definition toFixed1 (d : t) : string :=
  match d with
  | Fin q => JS.toFixed1 q
  | Inf false => "Infinity"%string
  | Inf true => "-Infinity"%string
  end.

End Double.

(** ** Data model *)

(** One entry of [event.classResources]. *)
Record ClassResource := {
  type : Z;
  amount : Z
}.

(** [event.meta].  Both fields are optional in the event type; an object
    that another module attached may carry further properties, kept in
    [otherProperties]. *)
Record Meta := {
  isInefficientCast : option bool;
  inefficientCastReason : option string;
  otherProperties : list (string * string)
}.

Record CastEvent := {
  timestamp : Z;
  classResources : option (list ClassResource);
  meta : option Meta
}.

(** The four instance fields of the analyzer. *)
Record CobraShot := {
  effectiveKCReductionMs : Z;
  wastedKCReductionMs : Z;
  wastedCasts : Z;
  casts : Z
}.

(** A call [spellUsable.reduceCooldown(spellId, reductionMs)]. *)
Record ReduceCommand := {
  cmd_spell : Z;
  cmd_amount : Z
}.

(** The threshold objects handed to the suggestion renderer. *)
Inductive ThresholdStyle := PERCENTAGE | NUMBER.

Record Bands := {
  minor : Q;
  average : Q;
  major : Q
}.

Record Threshold := {
  actual : Q;
  isLessThan : option Bands;
  isGreaterThan : option Bands;
  style : ThresholdStyle
}.

(** ** Collaborators and constants *)

(** The operations of [SpellUsable] the analyzer calls, over the state [W]
    of the shared modules.  [reduceCooldown] returns the state after the
    command and the amount it reports as applied. *)
Class SpellUsable (W : Type) := {
  isOnCooldown : W -> Z -> bool;
  cooldownRemaining : W -> Z -> Z;
  reduceCooldown : W -> Z -> Z -> W * Z
}.

Class GlobalCooldown (W : Type) := {
  getGlobalCooldownDuration : W -> Z -> Z
}.

(** Imported constants: ../../constants, SPELLS.*.id, RESOURCE_TYPES.FOCUS.id. *)
Class Constants := {
  COBRA_SHOT_CDR_MS : Z;
  COBRA_SHOT_FOCUS_THRESHOLD_TO_WAIT : Z;
  KILL_COMMAND_CAST_BM_id : Z;
  COBRA_SHOT_id : Z;
  FOCUS_id : Z
}.

(** ** Event annotations *)

(** The object literal assigned when [event.meta === undefined]. *)
Definition freshMeta : Meta :=
  {| isInefficientCast := Some false;
     inefficientCastReason := Some EmptyString;
     otherProperties := [] |}.

(** The two assignments [meta.isInefficientCast = true] and
    [meta.inefficientCastReason = reason]. *)
Definition markInefficient (m : Meta) (reason : string) : Meta :=
  {| isInefficientCast := Some true;
     inefficientCastReason := Some reason;
     otherProperties := otherProperties m |}.

(** [if (event.meta === undefined) event.meta = {...}]: the annotation
    object the handler works on is the event's own when it has one, and
    the fresh literal otherwise. *)
Definition metaOnEntry (event : CastEvent) : Meta :=
  match meta event with
  | None => freshMeta
  | Some m => m
  end.

(** The event with its [meta] property holding [m]. *)
Definition withMeta (event : CastEvent) (m : Meta) : CastEvent :=
  {| timestamp := timestamp event;
     classResources := classResources event;
     meta := Some m |}.

Definition notOnCooldownReason : string :=
  "Cobra Shot cast while Kill Command is not on cooldown."%string.

(** The analyzer proper. *)
Module Analyzer.
Section WithCollaborators.

Context {W : Type} `{SU : SpellUsable W} `{GCD : GlobalCooldown W}
        `{K : Constants}.

(** What one call of the handler leaves behind. *)
Record Outcome := {
  out_this : CobraShot;
  out_world : W;
  out_event : CastEvent;
  out_commands : list ReduceCommand
}.

Definition initial : CobraShot :=
  {| effectiveKCReductionMs := 0;
     wastedKCReductionMs := 0;
     wastedCasts := 0;
     casts := 0 |}.

Definition totalPossibleCDR (this : CobraShot) : Z :=
  Z.max (casts this * COBRA_SHOT_CDR_MS) 1.

Definition wastedCDR (this : CobraShot) : Q :=
  inject_Z (wastedKCReductionMs this) / inject_Z 1000.

(** [cdrEfficiencyCobraShotThreshold.actual]. *)
Definition cdrEfficiency (this : CobraShot) : Q :=
  inject_Z (effectiveKCReductionMs this) / inject_Z (totalPossibleCDR this).

Definition cdrEfficiencyCobraShotThreshold (this : CobraShot) : Threshold :=
  {| actual := cdrEfficiency this;
     isLessThan :=
       Some {| minor := 85 # 100; average := 80 # 100; major := 75 # 100 |};
     isGreaterThan := None;
     style := PERCENTAGE |}.

Definition wastedCobraShotsThreshold (this : CobraShot) : Threshold :=
  {| actual := inject_Z (wastedCasts this);
     isLessThan := None;
     isGreaterThan := Some {| minor := 0; average := 1; major := 2 |};
     style := NUMBER |}.

(** [event.classResources?.find(resource => resource.type === FOCUS.id)] *)
Definition focusResource (event : CastEvent) : option ClassResource :=
  match classResources event with
  | None => None
  | Some resources =>
      find (fun resource => type resource =? FOCUS_id) resources
  end.

(** The reason attached to a cast made on low focus while Kill Command
    was about to come off cooldown. *)
Definition lowFocusReason (globalCooldown : Z) (resource : ClassResource)
  : string :=
  ("Cobra Shot cast while Kill Command's cooldown was under "
     ++ Double.toFixed1
          (Double.add (inject_Z globalCooldown)
             (Double.nearest (inject_Z COBRA_SHOT_CDR_MS / inject_Z 1000)))
     ++ "s remaining and you were not close to capping focus as you only had "
     ++ JS.Number_toString (amount resource)
     ++ " focus.")%string.

Definition onCobraShotCast (this : CobraShot) (w : W) (event : CastEvent)
  : Outcome :=
  let m := metaOnEntry event in
  let casts' := casts this + 1 in
  if negb (isOnCooldown w KILL_COMMAND_CAST_BM_id) then
    {| out_this :=
         {| effectiveKCReductionMs := effectiveKCReductionMs this;
            wastedKCReductionMs := wastedKCReductionMs this + COBRA_SHOT_CDR_MS;
            wastedCasts := wastedCasts this + 1;
            casts := casts' |};
       out_world := w;
       out_event := withMeta event (markInefficient m notOnCooldownReason);
       out_commands := [] |}
  else
    let globalCooldown := getGlobalCooldownDuration w COBRA_SHOT_id in
    let killCommandCooldownRemaining :=
      cooldownRemaining w KILL_COMMAND_CAST_BM_id in
    if killCommandCooldownRemaining <? COBRA_SHOT_CDR_MS + globalCooldown then
      let effectiveReductionMs :=
        killCommandCooldownRemaining - globalCooldown in
      let reduced :=
        reduceCooldown w KILL_COMMAND_CAST_BM_id effectiveReductionMs in
      let this' :=
        {| effectiveKCReductionMs := effectiveKCReductionMs this + snd reduced;
           wastedKCReductionMs :=
             wastedKCReductionMs this
               + (COBRA_SHOT_CDR_MS - effectiveReductionMs);
           wastedCasts := wastedCasts this;
           casts := casts' |} in
      let m' :=
        match focusResource event with
        | None => m
        | Some resource =>
            if amount resource <? COBRA_SHOT_FOCUS_THRESHOLD_TO_WAIT
            then markInefficient m (lowFocusReason globalCooldown resource)
            else m
        end in
      {| out_this := this';
         out_world := fst reduced;
         out_event := withMeta event m';
         out_commands :=
           [ {| cmd_spell := KILL_COMMAND_CAST_BM_id;
                cmd_amount := effectiveReductionMs |} ] |}
    else
      let reduced :=
        reduceCooldown w KILL_COMMAND_CAST_BM_id COBRA_SHOT_CDR_MS in
      {| out_this :=
           {| effectiveKCReductionMs :=
                effectiveKCReductionMs this + snd reduced;
              wastedKCReductionMs := wastedKCReductionMs this;
              wastedCasts := wastedCasts this;
              casts := casts' |};
         out_world := fst reduced;
         out_event := withMeta event m;
         out_commands :=
           [ {| cmd_spell := KILL_COMMAND_CAST_BM_id;
                cmd_amount := COBRA_SHOT_CDR_MS |} ] |}.

(** ** Replaying a combat log

    The parser delivers events one at a time, in chronological order.
    Cobra Shot casts of the selected player reach [onCobraShotCast]
    (the listener registered in the constructor); everything else (the
    passing of time, casts of Kill Command, haste changes) only moves the
    shared modules.  A session records, for every handled cast, the
    counters and the shared state the handler was entered with and what it
    left behind. *)

Inductive LogEvent :=
| CobraShotCast (event : CastEvent)
| OtherActivity (advance : W -> W).

Record CastRecord := {
  cr_this : CobraShot;
  cr_world : W;
  cr_outcome : Outcome
}.

Record Session := {
  ses_this : CobraShot;
  ses_world : W;
  ses_trace : list CastRecord
}.

Definition start (w : W) : Session :=
  {| ses_this := initial; ses_world := w; ses_trace := [] |}.

Definition dispatch (s : Session) (e : LogEvent) : Session :=
  match e with
  | CobraShotCast event =>
      let o := onCobraShotCast (ses_this s) (ses_world s) event in
      {| ses_this := out_this o;
         ses_world := out_world o;
         ses_trace :=
           ses_trace s
             ++ [ {| cr_this := ses_this s;
                     cr_world := ses_world s;
                     cr_outcome := o |} ] |}
  | OtherActivity advance =>
      {| ses_this := ses_this s;
         ses_world := advance (ses_world s);
         ses_trace := ses_trace s |}
  end.

Definition replay (s : Session) (log : list LogEvent) : Session :=
  fold_left dispatch log s.

(** Kill Command was on cooldown when the recorded cast was handled. *)
Definition targetOnCooldown (r : CastRecord) : bool :=
  isOnCooldown (cr_world r) KILL_COMMAND_CAST_BM_id.

(** How many of the handled casts found Kill Command on cooldown. *)
Definition castsOnCooldown (s : Session) : Z :=
  Z.of_nat (List.length (filter targetOnCooldown (ses_trace s))).

(** The balance between the counters and the trace: every handled cast
    is either counted as wasted or found Kill Command on cooldown. *)
Definition balanced (s : Session) : Prop :=
  casts (ses_this s) = wastedCasts (ses_this s) + castsOnCooldown s.

(** How many events of a log reach the handler. *)
Definition handledCasts (log : list LogEvent) : nat :=
  List.length (filter (fun e => match e with
                           | CobraShotCast _ => true
                           | OtherActivity _ => false
                           end) log).

End WithCollaborators.

Arguments Outcome : clear implicits.
Arguments LogEvent : clear implicits.
Arguments CastRecord : clear implicits.
Arguments Session : clear implicits.

End Analyzer.

(** ** A concrete tracker for scenarios *)

Module Scenario.

(** Modelled from the spec: the cooldown collaborator of the external
    interfaces section ([isOnCooldown(id)], [cooldownRemaining(id)],
    [reduceCooldown(id, amountMs) -> appliedMs]) and the global-cooldown
    lookup; their implementations are not part of the analyzer's file.
    The tracker follows Kill Command only: [None] when it is available,
    [Some r] when it has [r] ms of cooldown left.  A reduction that
    exceeds what is left ends the cooldown and reports what was left;
    any other request is applied as asked and reported back. *)
Record Tracker := {
  killCommand : option Z;
  gcdDuration : positive
}.

(** Modelled from the spec: the reduction per cast is the 1000 ms of the
    scenarios (the class comment says 1 sec); the focus threshold and the
    three ids come from files outside the analyzer and stand for any
    fixed values. *)
#[export] Instance constants : Constants := {|
  COBRA_SHOT_CDR_MS := 1000;
  COBRA_SHOT_FOCUS_THRESHOLD_TO_WAIT := 50;
  KILL_COMMAND_CAST_BM_id := 34026;
  COBRA_SHOT_id := 193455;
  FOCUS_id := 2
|}.

Definition tracker_reduce (t : Tracker) (spellId reductionMs : Z)
  : Tracker * Z :=
  match killCommand t with
  | None => (t, 0)
  | Some remaining =>
      if negb (spellId =? KILL_COMMAND_CAST_BM_id) then (t, 0)
      else if remaining <? reductionMs then
        ({| killCommand := None; gcdDuration := gcdDuration t |}, remaining)
      else
        ({| killCommand := Some (remaining - reductionMs);
            gcdDuration := gcdDuration t |}, reductionMs)
  end.

#[export] Instance tracker_SpellUsable : SpellUsable Tracker := {|
  isOnCooldown t spellId :=
    (spellId =? KILL_COMMAND_CAST_BM_id)
      && match killCommand t with Some _ => true | None => false end;
  cooldownRemaining t spellId :=
    match killCommand t with
    | Some remaining =>
        if spellId =? KILL_COMMAND_CAST_BM_id then remaining else 0
    | None => 0
    end;
  reduceCooldown := tracker_reduce
|}.

#[export] Instance tracker_GlobalCooldown : GlobalCooldown Tracker := {|
  getGlobalCooldownDuration t _ := Zpos (gcdDuration t)
|}.

(** Kill Command with [remaining] ms left, under a 1500 ms global cooldown. *)
Definition onCooldownFor (remaining : Z) : Tracker :=
  {| killCommand := Some remaining; gcdDuration := 1500 |}.

Definition available : Tracker :=
  {| killCommand := None; gcdDuration := 1500 |}.

(** A bare cast event, as the parser delivers it. *)
Definition bareCast : CastEvent :=
  {| timestamp := 0; classResources := None; meta := None |}.

Definition castWithFocus (focus : Z) : CastEvent :=
  {| timestamp := 0;
     classResources := Some [ {| type := FOCUS_id; amount := focus |} ];
     meta := None |}.

(** A log with a cast below the global cooldown, a Kill Command cast by
    the player, and a cast on the full-reduction path. *)
Definition sampleLog : list (Analyzer.LogEvent Tracker) :=
  [ Analyzer.CobraShotCast bareCast;
    Analyzer.OtherActivity (fun _ => onCooldownFor 4000);
    Analyzer.CobraShotCast (castWithFocus 30) ].

(** A log during which Kill Command is never cast. *)
Definition idleLog : list (Analyzer.LogEvent Tracker) :=
  [ Analyzer.CobraShotCast bareCast;
    Analyzer.OtherActivity (fun t => t);
    Analyzer.CobraShotCast (castWithFocus 30) ].

End Scenario.

(** ** Further JavaScript number primitives *)

Module JSNumber.

(** [Math.round(x)]: the nearest integer, the larger one on a tie. *)
Definition Math_round (x : Q) : Z := Qfloor (x + (1 # 2)).

(** The [digits] decimals of [f], most significant first, with leading
    zeros. *)
Fixpoint fractionDigits (digits : nat) (f : Z) : string :=
  match digits with
  | O => EmptyString
  | S k =>
      let unit := 10 ^ Z.of_nat k in
      (JS.Number_toString (f / unit) ++ fractionDigits k (f mod unit))%string
  end.

(** [x.toFixed(digits)]: the sign, then the magnitude rounded to the
    nearest multiple of 10^-digits (the larger candidate on a tie), with
    exactly [digits] decimals.  Taken on the exact quotient, for
    magnitudes below 1e21. *)
Definition toFixed (digits : nat) (x : Q) : string :=
  let scale := 10 ^ Z.of_nat digits in
  let a := Z.abs (Qnum x) in
  let d := Zpos (Qden x) in
  let n := (2 * scale * a + d) / (2 * d) in
  let sign := if Qnum x <? 0 then "-"%string else EmptyString in
  let whole := JS.Number_toString (n / scale) in
  match digits with
  | O => (sign ++ whole)%string
  | S _ => (sign ++ whole ++ "." ++ fractionDigits digits (n mod scale))%string
  end.

(** [d.toFixed(digits)] and [Math.round(d) + ''] for the result [d] of a
    binary64 operation. *)
Definition toFixedDouble (digits : nat) (d : Double.t) : string :=
  match d with
  | Double.Fin q => toFixed digits q
  | Double.Inf false => "Infinity"%string
  | Double.Inf true => "-Infinity"%string
  end.

Definition roundedDouble (d : Double.t) : string :=
  match d with
  | Double.Fin q => JS.Number_toString (Math_round q)
  | Double.Inf false => "Infinity"%string
  | Double.Inf true => "-Infinity"%string
  end.

End JSNumber.

(** ** The statistic box *)

Module Report.

(** A child of the tooltip fragment: a run of text or a line break. *)
Inductive Node :=
| Text (s : string)
| Br.

(** The [tooltip] property built by [statistic()]: the sentence on
    wasted casts, a line break when both sentences show, the sentence on
    wasted seconds.  A condition that is [false] renders nothing; the
    seconds are the binary64 quotient of the wasted total by 1000. *)
Definition statisticTooltip (this : CobraShot) : list Node :=
  let noun := if 1 <? wastedCasts this then "casts"%string else "cast"%string in
  let wastedCastsText :=
    ("You had " ++ JS.Number_toString (wastedCasts this) ++ " " ++ noun
       ++ " of Cobra Shot when Kill Command wasn't on cooldown. ")%string in
  let wastedSecondsText :=
    ("You wasted "
       ++ JSNumber.toFixedDouble 2 (Double.nearest (Analyzer.wastedCDR this))
       ++ " seconds of potential cooldown reduction by casting Cobra Shot while Kill Command had less than 1 + GCD seconds remaining on its CD.")%string in
  (if 0 <? wastedCasts this then [ Text wastedCastsText ] else [])
  ++ (if (0 <? wastedCasts this) && (0 <? wastedKCReductionMs this)
      then [ Br ] else [])
  ++ (if 0 <? wastedKCReductionMs this then [ Text wastedSecondsText ] else []).

End Report.

(** ** The feeding tab

    The second component of the file: [formatThousands], [formatNumber]
    and the data [FeedingTab.render] puts in its tables.  Healing amounts
    are JavaScript numbers, modelled as rationals; a division can leave
    the finite numbers, so its result is a [Num]. *)

Module Feeding.

(** [a > b] on finite numbers. *)
Definition Qgtb (a b : Q) : bool := negb (Qle_bool a b).

(** *** Number formatting *)

Definition isDigit (c : ascii) : bool :=
  ((48 <=? nat_of_ascii c) && (nat_of_ascii c <=? 57))%nat.

(** How many digits [s] starts with. *)
Fixpoint digitRun (s : string) : nat :=
  match s with
  | EmptyString => O
  | String c rest => if isDigit c then S (digitRun rest) else O
  end.

(** [s.replace(/(\d)(?=(\d{3})+(?!\d))/g, '$1,')]: a comma goes after
    every digit that is followed by a positive multiple of three digits
    and then by no further digit.  The lookahead consumes nothing, so
    every position is tested on the original string: the digits that
    follow must form a run whose whole length is a multiple of three. *)
Fixpoint groupDigits (s : string) : string :=
  match s with
  | EmptyString => EmptyString
  | String c rest =>
      let run := digitRun rest in
      if (isDigit c && (0 <? run) && (run mod 3 =? 0))%nat
      then String c (String "," (groupDigits rest))
      else String c (groupDigits rest)
  end.

(** [number || 0]: an undefined or NaN argument ([None]) counts as 0. *)
Definition orZero (number : option Q) : Q :=
  match number with
  | Some x => x
  | None => 0%Q
  end.

Definition formatThousands (number : option Q) : string :=
  groupDigits (JS.Number_toString (JSNumber.Math_round (orZero number))).

(** A comparison with an undefined or NaN argument is false; the two
    quotients are binary64 divisions. *)
Definition formatNumber (number : option Q) : string :=
  match number with
  | Some x =>
      if Qgtb x (inject_Z 1000000) then
        (JSNumber.toFixedDouble 2 (Double.nearest (x / inject_Z 1000000))
           ++ "m")%string
      else if Qgtb x (inject_Z 10000) then
        (JSNumber.roundedDouble (Double.nearest (x / inject_Z 1000))
           ++ "k")%string
      else formatThousands number
  | None => formatThousands number
  end.

(** Dropping the separators again. *)
Fixpoint removeCommas (s : string) : string :=
  match s with
  | EmptyString => EmptyString
  | String c rest =>
      if Ascii.eqb c "," then removeCommas rest
      else String c (removeCommas rest)
  end.

(** Only digits. *)
Fixpoint allDigits (s : string) : bool :=
  match s with
  | EmptyString => true
  | String c rest => isDigit c && allDigits rest
  end.

(** *** The data of the tables *)

Record Ability := {
  name : string;
  icon : string;
  healing : Q;
  effectiveHealing : Q;
  mergedHealing : Q;
  mergedEffectiveHealing : Q
}.

Record Totals := {
  total : Q;
  totalEffective : Q;
  mergedTotal : Q;
  mergedTotalEffective : Q
}.

(** A category of the tab.  [feed] is the array indexed by spell id, given
    by its entries in index order (the order of [reduce] and of
    [Object.keys]). *)
Record Category := {
  cat_name : string;
  feed : list (Z * Ability);
  spell : Z;
  totals : Totals
}.

(** The result of a division.  [divide], [times] and [Math_min] below
    give the width of a bar as the exact quotient; [quotient] and
    [product] round as binary64 does, for the percentage that is
    printed with two decimals. *)
Inductive Num :=
| NaN
| PosInfinity
| NegInfinity
| Finite (q : Q).

(** [x / y] for a finite [x]; [y] may be undefined. *)
Definition divide (x : Q) (y : option Q) : Num :=
  match y with
  | None => NaN
  | Some d =>
      if Qeq_bool d 0 then
        if Qgtb x 0 then PosInfinity
        else if Qgtb 0 x then NegInfinity
        else NaN
      else Finite (x / d)
  end.

Definition times (n : Num) (k : Q) : Num :=
  match n with
  | Finite q => Finite (q * k)
  | other => other
  end.

(** [Math.min(n, k)] for a finite [k]. *)
Definition Math_min (n : Num) (k : Q) : Num :=
  match n with
  | NaN => NaN
  | PosInfinity => Finite k
  | NegInfinity => NegInfinity
  | Finite q => Finite (if Qgtb q k then k else q)
  end.

Definition ofDouble (d : Double.t) : Num :=
  match d with
  | Double.Fin q => Finite q
  | Double.Inf false => PosInfinity
  | Double.Inf true => NegInfinity
  end.

(** [x / y] in binary64, for finite [x] and [y]. *)
Definition quotient (x y : Q) : Num :=
  if Qeq_bool y 0 then
    if Qgtb x 0 then PosInfinity
    else if Qgtb 0 x then NegInfinity
    else NaN
  else ofDouble (Double.nearest (x / y)).

(** [n * k] in binary64, for a finite positive [k]. *)
Definition product (n : Num) (k : Q) : Num :=
  match n with
  | Finite q => ofDouble (Double.nearest (q * k))
  | other => other
  end.

(** [n.toFixed(digits)], for magnitudes below 1e21. *)
Definition Num_toFixed (digits : nat) (n : Num) : string :=
  match n with
  | NaN => "NaN"%string
  | PosInfinity => "Infinity"%string
  | NegInfinity => "-Infinity"%string
  | Finite q => JSNumber.toFixed digits q
  end.

(** The callback of [category.feed.reduce(..., 0)].  The accumulator
    starts as the number 0 ([None]), whose [healing] is undefined, so
    the first comparison is false and the first ability is taken. *)
Definition pickLarger (expand : bool) (a : option Ability) (b : Ability)
  : option Ability :=
  match a with
  | None => Some b
  | Some a' =>
      let aHealing := if expand then mergedHealing a' else healing a' in
      let bHealing := if expand then mergedHealing b else healing b in
      if Qgtb aHealing bHealing then Some a' else Some b
  end.

(** [category.max]: the [healing] of what the reduction leaves, undefined
    for an empty feed. *)
Definition categoryMax (expand : bool) (category : Category) : option Q :=
  option_map healing
    (fold_left (pickLarger expand) (map snd (feed category)) None).

(** The comparator handed to [sort]. *)
Definition byHealing (a b : Z * Ability) : Z :=
  let healingA := healing (snd a) in
  let healingB := healing (snd b) in
  if Qgtb healingA healingB then -1
  else if Qgtb healingB healingA then 1
  else 0.

(** [Array.prototype.sort] with a comparator: a stable sort, the element
    going before the first one it does not compare greater than. *)
Fixpoint insertSorted {A} (cmp : A -> A -> Z) (x : A) (l : list A) : list A :=
  match l with
  | [] => [x]
  | y :: rest =>
      if 0 <? cmp x y then y :: insertSorted cmp x rest
      else x :: y :: rest
  end.

Fixpoint sort {A} (cmp : A -> A -> Z) (l : list A) : list A :=
  match l with
  | [] => []
  | x :: rest => insertSorted cmp x (sort cmp rest)
  end.

(** The order the comparator asks for: no ability above one with less
    healing. *)
Definition healingDescending (a b : Z * Ability) : Prop :=
  (healing (snd b) <= healing (snd a))%Q.

(** The entries a table shows, in the order it shows them. *)
Definition visibleEntries (expand : bool) (category : Category)
  : list (Z * Ability) :=
  filter (fun entry => negb expand || Qgtb (mergedHealing (snd entry)) 0)
    (sort byHealing (feed category)).

Record Row := {
  row_name : string;
  row_percentage : string;
  row_barWidth : Num;
  row_healing : string;
  row_effectiveHealing : string
}.

Definition renderRow (expand : bool) (category : Category) (max : option Q)
  (entry : Z * Ability) : Row :=
  let ability := snd entry in
  let healing' := if expand then mergedHealing ability else healing ability in
  let effectiveHealing' :=
    if expand then mergedEffectiveHealing ability
    else effectiveHealing ability in
  let totalHealing :=
    if expand then mergedTotal (totals category)
    else total (totals category) in
  {| row_name := name ability;
     row_percentage :=
       (Num_toFixed 2 (product (quotient healing' totalHealing) 100)
          ++ "%")%string;
     row_barWidth := Math_min (times (divide healing' max) 100) 100;
     row_healing := formatNumber (Some healing');
     row_effectiveHealing := formatNumber (Some effectiveHealing') |}.

Record Table := {
  table_name : string;
  table_spell : Z;
  table_rows : list Row;
  table_total : string;
  table_totalEffective : string
}.

Definition renderTable (expand : bool) (category : Category) : Table :=
  let max := categoryMax expand category in
  {| table_name := cat_name category;
     table_spell := spell category;
     table_rows :=
       map (renderRow expand category max) (visibleEntries expand category);
     table_total :=
       formatNumber
         (Some (if expand then mergedTotal (totals category)
                else total (totals category)));
     table_totalEffective :=
       formatNumber
         (Some (if expand then mergedTotalEffective (totals category)
                else totalEffective (totals category))) |}.

(** The tables of [render]: one per category whose total is positive. *)
Definition render (expand : bool) (categories : list Category) : list Table :=
  map (renderTable expand)
    (filter (fun category => Qgtb (total (totals category)) 0) categories).

(** The [cooldownTracker] property of the component. *)
Record CooldownTracker := {
  cbtFeed : list (Z * Ability);
  cbtTotals : Totals;
  agFeed : list (Z * Ability);
  agTotals : Totals;
  ascFeed : list (Z * Ability);
  ascTotals : Totals
}.

(** The ids of the three spells of common/SPELLS the tab links to. *)
Record TabSpells := {
  CLOUDBURST_TOTEM_CAST_id : Z;
  ANCESTRAL_GUIDANCE_CAST_id : Z;
  ASCENDANCE_CAST_id : Z
}.

(** The array literal [render] starts from. *)
Definition categoriesOf (spells : TabSpells) (cooldownTracker : CooldownTracker)
  : list Category :=
  [ {| cat_name := "Cloudburst Totem";
       feed := cbtFeed cooldownTracker;
       spell := CLOUDBURST_TOTEM_CAST_id spells;
       totals := cbtTotals cooldownTracker |};
    {| cat_name := "Ancestral Guidance";
       feed := agFeed cooldownTracker;
       spell := ANCESTRAL_GUIDANCE_CAST_id spells;
       totals := agTotals cooldownTracker |};
    {| cat_name := "Ascendance";
       feed := ascFeed cooldownTracker;
       spell := ASCENDANCE_CAST_id spells;
       totals := ascTotals cooldownTracker |} ].

(** [FeedingTab.render].  [state.expand] is set to [false] by the
    constructor and nothing changes it (the toggle is commented out). *)
Definition FeedingTab_render (spells : TabSpells)
  (cooldownTracker : CooldownTracker) : list Table :=
  render false (categoriesOf spells cooldownTracker).

(** Sample data. *)
Definition sampleAbility (label : string) (amount : Q) : Ability :=
  {| name := label; icon := label;
     healing := amount; effectiveHealing := amount;
     mergedHealing := amount; mergedEffectiveHealing := amount |}.

Definition sampleTotals (amount : Q) : Totals :=
  {| total := amount; totalEffective := amount;
     mergedTotal := amount; mergedTotalEffective := amount |}.

Definition sampleFeed : list (Z * Ability) :=
  [ (1, sampleAbility "Riptide" 3);
    (5, sampleAbility "Healing Wave" 10);
    (7, sampleAbility "Chain Heal" 10);
    (9, sampleAbility "Healing Rain" 1) ]%Z.

Definition sampleCategory : Category :=
  {| cat_name := "Cloudburst Totem"; feed := sampleFeed; spell := 157153;
     totals := sampleTotals 24 |}.

Definition sampleTracker : CooldownTracker :=
  {| cbtFeed := sampleFeed; cbtTotals := sampleTotals 24;
     agFeed := []; agTotals := sampleTotals 0;
     ascFeed := sampleFeed; ascTotals := sampleTotals 0 |}.

Definition sampleSpells : TabSpells :=
  {| CLOUDBURST_TOTEM_CAST_id := 157153;
     ANCESTRAL_GUIDANCE_CAST_id := 108281;
     ASCENDANCE_CAST_id := 114052 |}.

End Feeding.

(** * Properties of the handler *)

Import Analyzer.

Section HandlerPaths.

Context {W : Type} `{SU : SpellUsable W} `{GCD : GlobalCooldown W}
        `{K : Constants}.

(** The three paths of the handler, as rewriting rules. *)

Lemma onCobraShotCast_available this w event :
  isOnCooldown w KILL_COMMAND_CAST_BM_id = false ->
  onCobraShotCast this w event =
  {| out_this :=
       {| effectiveKCReductionMs := effectiveKCReductionMs this;
          wastedKCReductionMs := wastedKCReductionMs this + COBRA_SHOT_CDR_MS;
          wastedCasts := wastedCasts this + 1;
          casts := casts this + 1 |};
     out_world := w;
     out_event :=
       withMeta event (markInefficient (metaOnEntry event) notOnCooldownReason);
     out_commands := [] |}.
Proof.
  intros Hoff. unfold onCobraShotCast.
  rewrite Hoff. reflexivity.
Qed.

Lemma onCobraShotCast_overflow this w event :
  isOnCooldown w KILL_COMMAND_CAST_BM_id = true ->
  cooldownRemaining w KILL_COMMAND_CAST_BM_id
    < COBRA_SHOT_CDR_MS + getGlobalCooldownDuration w COBRA_SHOT_id ->
  let globalCooldown := getGlobalCooldownDuration w COBRA_SHOT_id in
  let effectiveReductionMs :=
    cooldownRemaining w KILL_COMMAND_CAST_BM_id - globalCooldown in
  let reduced :=
    reduceCooldown w KILL_COMMAND_CAST_BM_id effectiveReductionMs in
  onCobraShotCast this w event =
  {| out_this :=
       {| effectiveKCReductionMs := effectiveKCReductionMs this + snd reduced;
          wastedKCReductionMs :=
            wastedKCReductionMs this
              + (COBRA_SHOT_CDR_MS - effectiveReductionMs);
          wastedCasts := wastedCasts this;
          casts := casts this + 1 |};
     out_world := fst reduced;
     out_event :=
       withMeta event
         match focusResource event with
         | None => metaOnEntry event
         | Some resource =>
             if amount resource <? COBRA_SHOT_FOCUS_THRESHOLD_TO_WAIT
             then markInefficient (metaOnEntry event)
                    (lowFocusReason globalCooldown resource)
             else metaOnEntry event
         end;
     out_commands :=
       [ {| cmd_spell := KILL_COMMAND_CAST_BM_id;
            cmd_amount := effectiveReductionMs |} ] |}.
Proof.
  intros Hon Hlt. cbv zeta. unfold onCobraShotCast.
  rewrite Hon. cbn [negb].
  apply Z.ltb_lt in Hlt. rewrite Hlt. reflexivity.
Qed.

Lemma onCobraShotCast_full this w event :
  isOnCooldown w KILL_COMMAND_CAST_BM_id = true ->
  COBRA_SHOT_CDR_MS + getGlobalCooldownDuration w COBRA_SHOT_id
    <= cooldownRemaining w KILL_COMMAND_CAST_BM_id ->
  let reduced :=
    reduceCooldown w KILL_COMMAND_CAST_BM_id COBRA_SHOT_CDR_MS in
  onCobraShotCast this w event =
  {| out_this :=
       {| effectiveKCReductionMs := effectiveKCReductionMs this + snd reduced;
          wastedKCReductionMs := wastedKCReductionMs this;
          wastedCasts := wastedCasts this;
          casts := casts this + 1 |};
     out_world := fst reduced;
     out_event := withMeta event (metaOnEntry event);
     out_commands :=
       [ {| cmd_spell := KILL_COMMAND_CAST_BM_id;
            cmd_amount := COBRA_SHOT_CDR_MS |} ] |}.
Proof.
  intros Hon Hge. cbv zeta. unfold onCobraShotCast.
  rewrite Hon. cbn [negb].
  apply Z.ltb_ge in Hge. rewrite Hge. reflexivity.
Qed.

End HandlerPaths.

(** Case analysis on the path taken. *)
Ltac handler_paths this w event :=
  destruct (isOnCooldown w KILL_COMMAND_CAST_BM_id) eqn:Hcd;
  [ destruct (Z.lt_ge_cases
                (cooldownRemaining w KILL_COMMAND_CAST_BM_id)
                (COBRA_SHOT_CDR_MS
                   + getGlobalCooldownDuration w COBRA_SHOT_id)) as [Hlt | Hge];
    [ rewrite (onCobraShotCast_overflow this w event Hcd Hlt)
    | rewrite (onCobraShotCast_full this w event Hcd Hge) ]
  | rewrite (onCobraShotCast_available this w event Hcd) ].

Section HandlerProperties.

Context {W : Type} `{SU : SpellUsable W} `{GCD : GlobalCooldown W}
        `{K : Constants}.

(** C1. A cast made while Kill Command is on cooldown with less than the
    reduction plus Cobra Shot's global cooldown remaining: the effective
    reduction is the remaining cooldown minus the global cooldown; exactly
    that amount is the one command sent to the tracker; the amount the
    tracker reports is added to the effective total and the reduction per
    cast minus the computed amount is added to the wasted total. *)
Theorem overflow_cast_accounting this w event :
  isOnCooldown w KILL_COMMAND_CAST_BM_id = true ->
  cooldownRemaining w KILL_COMMAND_CAST_BM_id
    < COBRA_SHOT_CDR_MS + getGlobalCooldownDuration w COBRA_SHOT_id ->
  let effectiveReductionMs :=
    cooldownRemaining w KILL_COMMAND_CAST_BM_id
      - getGlobalCooldownDuration w COBRA_SHOT_id in
  let reduced :=
    reduceCooldown w KILL_COMMAND_CAST_BM_id effectiveReductionMs in
  let o := onCobraShotCast this w event in
  out_commands o =
    [ {| cmd_spell := KILL_COMMAND_CAST_BM_id;
         cmd_amount := effectiveReductionMs |} ]
  /\ out_world o = fst reduced
  /\ effectiveKCReductionMs (out_this o)
     = effectiveKCReductionMs this + snd reduced
  /\ wastedKCReductionMs (out_this o)
     = wastedKCReductionMs this + (COBRA_SHOT_CDR_MS - effectiveReductionMs).
Proof.
  intros Hon Hlt. cbv zeta.
  rewrite (onCobraShotCast_overflow this w event Hon Hlt).
  cbn. repeat split.
Qed.

(** C2. A cast made while Kill Command is available: the cast counter and
    the wasted-cast counter both go up by one, the whole reduction per
    cast is added to the wasted total, the event is marked inefficient
    with the fixed reason, and no command reaches the tracker. *)
Theorem available_cast_is_wasted this w event :
  isOnCooldown w KILL_COMMAND_CAST_BM_id = false ->
  let o := onCobraShotCast this w event in
  casts (out_this o) = casts this + 1
  /\ wastedCasts (out_this o) = wastedCasts this + 1
  /\ wastedKCReductionMs (out_this o)
     = wastedKCReductionMs this + COBRA_SHOT_CDR_MS
  /\ effectiveKCReductionMs (out_this o) = effectiveKCReductionMs this
  /\ (exists m,
        meta (out_event o) = Some m
        /\ isInefficientCast m = Some true
        /\ inefficientCastReason m = Some notOnCooldownReason)
  /\ out_commands o = []
  /\ out_world o = w.
Proof.
  intros Hoff. cbv zeta.
  rewrite (onCobraShotCast_available this w event Hoff). cbn.
  repeat split.
  eexists. repeat split.
Qed.

(** C3. A cast made while Kill Command is on cooldown with at least the
    reduction plus the global cooldown remaining: the one command sent is
    a reduction by the whole amount per cast, the amount the tracker
    reports is added to the effective total, and the wasted total and
    the wasted-cast counter keep their values. *)
Theorem full_reduction_cast_accounting this w event :
  isOnCooldown w KILL_COMMAND_CAST_BM_id = true ->
  COBRA_SHOT_CDR_MS + getGlobalCooldownDuration w COBRA_SHOT_id
    <= cooldownRemaining w KILL_COMMAND_CAST_BM_id ->
  let reduced :=
    reduceCooldown w KILL_COMMAND_CAST_BM_id COBRA_SHOT_CDR_MS in
  let o := onCobraShotCast this w event in
  out_commands o =
    [ {| cmd_spell := KILL_COMMAND_CAST_BM_id;
         cmd_amount := COBRA_SHOT_CDR_MS |} ]
  /\ out_world o = fst reduced
  /\ effectiveKCReductionMs (out_this o)
     = effectiveKCReductionMs this + snd reduced
  /\ wastedKCReductionMs (out_this o) = wastedKCReductionMs this
  /\ wastedCasts (out_this o) = wastedCasts this.
Proof.
  intros Hon Hge. cbv zeta.
  rewrite (onCobraShotCast_full this w event Hon Hge).
  cbn. repeat split.
Qed.

(** C6. Kill Command on cooldown with less than Cobra Shot's global
    cooldown remaining: the computed effective reduction is negative, and
    that negative amount is what the handler passes to [reduceCooldown]. *)
Theorem negative_reduction_is_commanded this w event :
  0 <= COBRA_SHOT_CDR_MS ->
  isOnCooldown w KILL_COMMAND_CAST_BM_id = true ->
  cooldownRemaining w KILL_COMMAND_CAST_BM_id
    < getGlobalCooldownDuration w COBRA_SHOT_id ->
  let effectiveReductionMs :=
    cooldownRemaining w KILL_COMMAND_CAST_BM_id
      - getGlobalCooldownDuration w COBRA_SHOT_id in
  effectiveReductionMs < 0
  /\ out_commands (onCobraShotCast this w event) =
       [ {| cmd_spell := KILL_COMMAND_CAST_BM_id;
            cmd_amount := effectiveReductionMs |} ].
Proof.
  intros Hcdr Hon Hshort. cbv zeta. split; [lia|].
  rewrite onCobraShotCast_overflow by (assumption || lia).
  reflexivity.
Qed.

(** What [find] returning nothing means for the snapshot. *)
Lemma focusResource_None event :
  focusResource event = None <->
  (forall resources,
      classResources event = Some resources ->
      forall resource, In resource resources -> type resource <> FOCUS_id).
Proof.
  unfold focusResource. destruct (classResources event) as [rs|].
  - split.
    + intros Hnone resources [= <-] r Hin Htype.
      pose proof (find_none _ _ Hnone r Hin) as Hneq. cbn in Hneq.
      apply Z.eqb_neq in Hneq. contradiction.
    + intros Hall. specialize (Hall rs eq_refl).
      destruct (find _ rs) as [r|] eqn:Hfind; [|reflexivity].
      apply find_some in Hfind as [Hin Hty].
      apply Z.eqb_eq in Hty. destruct (Hall r Hin Hty).
  - split; [discriminate | reflexivity].
Qed.

(** What [find] returning an entry means: it is an entry of the snapshot
    for the tracked resource. *)
Lemma focusResource_Some event resource :
  focusResource event = Some resource ->
  type resource = FOCUS_id
  /\ exists resources,
       classResources event = Some resources /\ In resource resources.
Proof.
  unfold focusResource. destruct (classResources event) as [rs|]; [|discriminate].
  intros Hfind. apply find_some in Hfind as [Hin Hty].
  apply Z.eqb_eq in Hty. eauto.
Qed.

(** C10. The event leaves the handler with an annotation object.  An
    event that came without one leaves with a new object that has no
    other property and holds either [isInefficientCast: false] with the
    empty reason, or [isInefficientCast: true] with a reason.  An event
    that came with an object leaves with that object, untouched or with
    [isInefficientCast: true] and a reason written over its two fields,
    every other property kept.  A cast that is not classified as
    inefficient (Kill Command on cooldown and either enough cooldown
    left, or no focus entry, or focus at the threshold or above) leaves
    with [false] and the empty reason when it came without annotation,
    and with its own object untouched otherwise.  The rest of the event
    is as it was. *)
Theorem meta_defined_after_cast this w event :
  let o := onCobraShotCast this w event in
  exists m',
    meta (out_event o) = Some m'
    /\ timestamp (out_event o) = timestamp event
    /\ classResources (out_event o) = classResources event
    /\ (meta event = None ->
        otherProperties m' = []
        /\ ((isInefficientCast m' = Some false
             /\ inefficientCastReason m' = Some EmptyString)
            \/ (isInefficientCast m' = Some true
                /\ exists reason, inefficientCastReason m' = Some reason)))
    /\ (forall m,
          meta event = Some m ->
          otherProperties m' = otherProperties m
          /\ (m' = m
              \/ (isInefficientCast m' = Some true
                  /\ exists reason, inefficientCastReason m' = Some reason)))
    /\ (isOnCooldown w KILL_COMMAND_CAST_BM_id = true ->
        (COBRA_SHOT_CDR_MS + getGlobalCooldownDuration w COBRA_SHOT_id
           <= cooldownRemaining w KILL_COMMAND_CAST_BM_id
         \/ focusResource event = None
         \/ exists resource,
              focusResource event = Some resource
              /\ COBRA_SHOT_FOCUS_THRESHOLD_TO_WAIT <= amount resource) ->
        (meta event = None ->
         isInefficientCast m' = Some false
         /\ inefficientCastReason m' = Some EmptyString
         /\ otherProperties m' = [])
        /\ (forall m, meta event = Some m -> m' = m)).
Proof.
  cbv zeta.
  assert (Hshape :
            meta (out_event (onCobraShotCast this w event))
            = Some (metaOnEntry event)
            \/ exists reason,
                 meta (out_event (onCobraShotCast this w event))
                 = Some (markInefficient (metaOnEntry event) reason)).
  { handler_paths this w event; cbn.
    - destruct (focusResource event) as [resource|]; [|left; reflexivity].
      destruct (amount resource <? COBRA_SHOT_FOCUS_THRESHOLD_TO_WAIT);
        [right; eexists; reflexivity | left; reflexivity].
    - left; reflexivity.
    - right; eexists; reflexivity. }
  assert (Hkept :
            isOnCooldown w KILL_COMMAND_CAST_BM_id = true ->
            (COBRA_SHOT_CDR_MS + getGlobalCooldownDuration w COBRA_SHOT_id
               <= cooldownRemaining w KILL_COMMAND_CAST_BM_id
             \/ focusResource event = None
             \/ exists resource,
                  focusResource event = Some resource
                  /\ COBRA_SHOT_FOCUS_THRESHOLD_TO_WAIT <= amount resource) ->
            meta (out_event (onCobraShotCast this w event))
            = Some (metaOnEntry event)).
  { intros Hon Hefficient.
    handler_paths this w event; cbn; [|reflexivity|discriminate].
    destruct Hefficient as [Hfull | [Hnone | (resource & Hsome & Hhigh)]].
    - lia.
    - rewrite Hnone. reflexivity.
    - rewrite Hsome. apply Z.ltb_ge in Hhigh. rewrite Hhigh. reflexivity. }
  assert (Hrest :
            timestamp (out_event (onCobraShotCast this w event))
            = timestamp event
            /\ classResources (out_event (onCobraShotCast this w event))
               = classResources event)
    by (handler_paths this w event; split; reflexivity).
  destruct Hrest as [Htime Hresources].
  unfold metaOnEntry in Hshape, Hkept.
  destruct (meta event) as [m|] eqn:Hentry.
  - destruct Hshape as [Hsame | [reason Hmarked]].
    + exists m.
      refine (conj Hsame (conj Htime (conj Hresources (conj _ (conj _ _))))).
      * discriminate.
      * intros m0 [= <-]. split; [reflexivity | left; reflexivity].
      * intros _ _. split; [discriminate | intros m0 [= <-]; reflexivity].
    + exists (markInefficient m reason).
      refine (conj Hmarked (conj Htime (conj Hresources (conj _ (conj _ _))))).
      * discriminate.
      * intros m0 [= <-]. split; [reflexivity|].
        right. split; [reflexivity | eexists; reflexivity].
      * intros Hon Hefficient.
        rewrite (Hkept Hon Hefficient) in Hmarked. injection Hmarked as Hm.
        split; [discriminate | intros m0 [= <-]; symmetry; exact Hm].
  - destruct Hshape as [Hsame | [reason Hmarked]].
    + exists freshMeta.
      refine (conj Hsame (conj Htime (conj Hresources (conj _ (conj _ _))))).
      * intros _. split; [reflexivity | left; split; reflexivity].
      * intros m0. discriminate.
      * intros _ _. split; [intros _; repeat split | intros m0; discriminate].
    + exists (markInefficient freshMeta reason).
      refine (conj Hmarked (conj Htime (conj Hresources (conj _ (conj _ _))))).
      * intros _. split; [reflexivity|].
        right. split; [reflexivity | eexists; reflexivity].
      * intros m0. discriminate.
      * intros Hon Hefficient.
        rewrite (Hkept Hon Hefficient) in Hmarked. discriminate Hmarked.
Qed.

(** X2. The counters the handler computes on its own (casts, wasted
    casts, wasted total) never go down, the reduction per cast being a
    non-negative constant. *)
Lemma own_counters_monotone this w event :
  0 <= COBRA_SHOT_CDR_MS ->
  let this' := out_this (onCobraShotCast this w event) in
  casts this <= casts this'
  /\ wastedCasts this <= wastedCasts this'
  /\ wastedKCReductionMs this <= wastedKCReductionMs this'.
Proof.
  intros Hcdr. cbv zeta.
  handler_paths this w event; cbn; lia.
Qed.

(** The effective total moves by what the tracker reports: it does not
    go down on a cast for which every report is non-negative. *)
Lemma effective_total_monotone this w event :
  (forall amount', 0 <= snd (reduceCooldown w KILL_COMMAND_CAST_BM_id amount')) ->
  effectiveKCReductionMs this
    <= effectiveKCReductionMs (out_this (onCobraShotCast this w event)).
Proof.
  intros Hreport.
  handler_paths this w event; cbn;
    try match goal with
        | |- context [reduceCooldown ?w ?i ?a] =>
            pose proof (Hreport a)
        end; lia.
Qed.

(** The floor of one keeps the divisor of the efficiency ratio positive. *)
Lemma totalPossibleCDR_positive this : 0 < totalPossibleCDR this.
Proof. unfold totalPossibleCDR. lia. Qed.

(** With no cast recorded the total possible reduction is 1, not 0. *)
Lemma totalPossibleCDR_no_casts : totalPossibleCDR initial = 1.
Proof. unfold totalPossibleCDR. cbn. lia. Qed.

(** X1. The efficiency ratio of counters whose effective total lies
    between zero and the total possible reduction lies between zero and
    one. *)
Lemma cdrEfficiency_unit_interval this :
  0 <= effectiveKCReductionMs this ->
  effectiveKCReductionMs this <= totalPossibleCDR this ->
  (0 <= cdrEfficiency this /\ cdrEfficiency this <= 1)%Q.
Proof.
  intros Hlo Hhi. unfold cdrEfficiency.
  pose proof (totalPossibleCDR_positive this) as Hpos.
  assert (Hq : (0 < inject_Z (totalPossibleCDR this))%Q)
    by (change 0%Q with (inject_Z 0); rewrite <- Zlt_Qlt; exact Hpos).
  split.
  - apply Qle_shift_div_l; [exact Hq|].
    rewrite Qmult_0_l. change 0%Q with (inject_Z 0).
    rewrite <- Zle_Qle. exact Hlo.
  - apply Qle_shift_div_r; [exact Hq|].
    rewrite Qmult_1_l. rewrite <- Zle_Qle. exact Hhi.
Qed.

End HandlerProperties.

(** * Properties of a replayed session *)

Section SessionProperties.

Context {W : Type} `{SU : SpellUsable W} `{GCD : GlobalCooldown W}
        `{K : Constants}.

Lemma replay_cons (s : Session W) e log :
  replay s (e :: log) = replay (dispatch s e) log.
Proof. reflexivity. Qed.

(** A property of single handler runs holds of every record of a trace. *)
Lemma replay_trace_Forall (P : CastRecord W -> Prop) :
  (forall this w event,
      P {| cr_this := this; cr_world := w;
           cr_outcome := onCobraShotCast this w event |}) ->
  forall log s,
    Forall P (ses_trace s) -> Forall P (ses_trace (replay s log)).
Proof.
  intros Hrun log. induction log as [|e log IH]; intros s Hs.
  - exact Hs.
  - rewrite replay_cons. apply IH.
    destruct e as [event | advance]; cbn.
    + apply Forall_app. split; [exact Hs|].
      constructor; [apply Hrun | constructor].
    + exact Hs.
Qed.

(** The trace grows by one record per handled cast. *)
Lemma replay_trace_length log : forall s : Session W,
  List.length (ses_trace (replay s log))
  = (List.length (ses_trace s) + handledCasts log)%nat.
Proof.
  induction log as [|e log IH]; intros s.
  - cbn. lia.
  - rewrite replay_cons, IH. unfold handledCasts.
    destruct e; cbn; rewrite ?length_app; cbn; lia.
Qed.

Lemma dispatch_balanced (s : Session W) e :
  balanced s -> balanced (dispatch s e).
Proof.
  unfold balanced, castsOnCooldown. intros Hs.
  destruct e as [event | advance]; cbn; [|exact Hs].
  rewrite filter_app, length_app. cbn. unfold targetOnCooldown at 2. cbn.
  handler_paths (ses_this s) (ses_world s) event; cbn; lia.
Qed.

Lemma replay_balanced log : forall s : Session W,
  balanced s -> balanced (replay s log).
Proof.
  induction log as [|e log IH]; intros s Hs; [exact Hs|].
  rewrite replay_cons. apply IH, dispatch_balanced, Hs.
Qed.

(** C4. After any log, replayed from the start of a session, the cast
    counter is the wasted-cast counter plus the number of handled casts
    that found Kill Command on cooldown. *)
Theorem casts_split_by_target_state (w : W) (log : list (LogEvent W)) :
  let s := replay (start w) log in
  casts (ses_this s) = wastedCasts (ses_this s) + castsOnCooldown s.
Proof.
  cbv zeta. apply replay_balanced. reflexivity.
Qed.

(** The amount of a command never exceeds the remaining cooldown the
    handler has just read, as long as the global cooldown it read is not
    negative. *)
Lemma command_within_remaining this (w : W) event :
  0 <= getGlobalCooldownDuration w COBRA_SHOT_id ->
  Forall
    (fun c =>
       cmd_spell c = KILL_COMMAND_CAST_BM_id
       /\ cmd_amount c <= cooldownRemaining w KILL_COMMAND_CAST_BM_id)
    (out_commands (onCobraShotCast this w event)).
Proof.
  intros Hgcd.
  handler_paths this w event; cbn; repeat constructor; cbn; lia.
Qed.

(** C8. Global cooldowns being durations (never negative), every command
    of every handled cast of every log asks to reduce Kill Command's
    cooldown by at most the remaining cooldown the tracker showed when
    the cast was handled. *)
Theorem commands_within_remaining_cooldown :
  (forall w : W, 0 <= getGlobalCooldownDuration w COBRA_SHOT_id) ->
  forall (w0 : W) (log : list (LogEvent W)),
    Forall
      (fun r =>
         Forall
           (fun c =>
              cmd_spell c = KILL_COMMAND_CAST_BM_id
              /\ cmd_amount c
                 <= cooldownRemaining (cr_world r) KILL_COMMAND_CAST_BM_id)
           (out_commands (cr_outcome r)))
      (ses_trace (replay (start w0) log)).
Proof.
  intros Hgcd w0 log.
  apply replay_trace_Forall; [|constructor].
  intros this w event. cbn. apply command_within_remaining, Hgcd.
Qed.

(** Replaying only ever appends to the trace. *)
Lemma replay_trace_extends log : forall s : Session W,
  exists rest, ses_trace (replay s log) = ses_trace s ++ rest.
Proof.
  induction log as [|e log IH]; intros s.
  - exists []. cbn. now rewrite app_nil_r.
  - rewrite replay_cons. destruct (IH (dispatch s e)) as [rest Hrest].
    rewrite Hrest. destruct e as [event | advance]; cbn.
    + rewrite <- app_assoc. eauto.
    + eauto.
Qed.

Lemma replay_effective_unchanged log : forall s : Session W,
  Forall (fun r => targetOnCooldown r = false) (ses_trace (replay s log)) ->
  effectiveKCReductionMs (ses_this (replay s log))
  = effectiveKCReductionMs (ses_this s).
Proof.
  induction log as [|e log IH]; intros s Hnever; [reflexivity|].
  rewrite replay_cons in *. rewrite (IH _ Hnever).
  destruct e as [event | advance]; [|reflexivity].
  destruct (replay_trace_extends log (dispatch s (CobraShotCast event)))
    as [rest Hrest].
  rewrite Hrest in Hnever. cbn in Hnever.
  apply Forall_app in Hnever as [Hnever _].
  apply Forall_app in Hnever as [_ Hthis].
  inversion Hthis as [|r l Hoff _]; subst.
  unfold targetOnCooldown in Hoff. cbn in Hoff. cbn.
  rewrite (onCobraShotCast_available _ _ event Hoff). reflexivity.
Qed.

Lemma filter_nothing {A} (f : A -> bool) (l : list A) :
  Forall (fun x => f x = false) l -> filter f l = [].
Proof.
  induction 1 as [|x l Hx _ IH]; [reflexivity|].
  cbn. rewrite Hx. exact IH.
Qed.

(** X3. When no handled cast found Kill Command on cooldown, every cast
    is counted as wasted and the effective total is still zero. *)
Theorem never_on_cooldown_all_wasted (w : W) (log : list (LogEvent W)) :
  let s := replay (start w) log in
  Forall (fun r => targetOnCooldown r = false) (ses_trace s) ->
  wastedCasts (ses_this s) = casts (ses_this s)
  /\ effectiveKCReductionMs (ses_this s) = 0.
Proof.
  cbv zeta. intros Hnever. split.
  - assert (Hbal : balanced (replay (start w) log))
      by (apply replay_balanced; reflexivity).
    unfold balanced, castsOnCooldown in Hbal.
    rewrite (filter_nothing _ _ Hnever) in Hbal. cbn in Hbal. lia.
  - rewrite (replay_effective_unchanged log _ Hnever). reflexivity.
Qed.

End SessionProperties.

(** * Scenarios on the concrete tracker *)

Import Scenario.

(** Kill Command at 2000 ms, global cooldown 1500 ms, reduction 1000 ms:
    500 ms are commanded and counted as effective, 500 ms as wasted. *)
Lemma overflow_cast_scenario :
  let o := onCobraShotCast initial (onCooldownFor 2000) bareCast in
  out_commands o =
    [ {| cmd_spell := KILL_COMMAND_CAST_BM_id; cmd_amount := 500 |} ]
  /\ effectiveKCReductionMs (out_this o) = 500
  /\ wastedKCReductionMs (out_this o) = 500.
Proof.
  cbv zeta.
  destruct (overflow_cast_accounting initial (onCooldownFor 2000) bareCast)
    as (Hcmd & _ & Heff & Hwasted).
  - reflexivity.
  - reflexivity.
  - rewrite Hcmd, Heff, Hwasted. repeat split.
Defined.

(** Kill Command available: one wasted cast, 1000 ms wasted, the event
    marked, nothing commanded. *)
Lemma available_cast_scenario :
  let o := onCobraShotCast initial available bareCast in
  casts (out_this o) = 1
  /\ wastedCasts (out_this o) = 1
  /\ wastedKCReductionMs (out_this o) = 1000
  /\ meta (out_event o) = Some (markInefficient freshMeta notOnCooldownReason)
  /\ out_commands o = [].
Proof.
  cbv zeta.
  destruct (available_cast_is_wasted initial available bareCast)
    as (Hcasts & Hwc & Hwasted & _ & _ & Hcmd & _).
  - reflexivity.
  - rewrite Hcasts, Hwc, Hwasted, Hcmd. repeat split.
Defined.

(** Kill Command at 4000 ms, global cooldown 1500 ms, reduction 1000 ms:
    the whole 1000 ms are commanded and counted, nothing is wasted. *)
Lemma full_reduction_cast_scenario :
  let o := onCobraShotCast initial (onCooldownFor 4000) bareCast in
  out_commands o =
    [ {| cmd_spell := KILL_COMMAND_CAST_BM_id; cmd_amount := 1000 |} ]
  /\ effectiveKCReductionMs (out_this o) = 1000
  /\ wastedKCReductionMs (out_this o) = 0
  /\ wastedCasts (out_this o) = 0.
Proof.
  cbv zeta.
  destruct (full_reduction_cast_accounting initial (onCooldownFor 4000) bareCast)
    as (Hcmd & _ & Heff & Hwasted & Hwc).
  - reflexivity.
  - discriminate.
  - rewrite Hcmd, Heff, Hwasted, Hwc. repeat split.
Defined.

(** Kill Command at 500 ms under a 1500 ms global cooldown: the handler
    commands a reduction by -1000 ms. *)
Lemma negative_reduction_scenario :
  (500 - 1500 < 0)
  /\ out_commands (onCobraShotCast initial (onCooldownFor 500) bareCast) =
       [ {| cmd_spell := KILL_COMMAND_CAST_BM_id; cmd_amount := 500 - 1500 |} ].
Proof.
  refine (negative_reduction_is_commanded
            initial (onCooldownFor 500) bareCast _ _ _).
  - discriminate.
  - reflexivity.
  - reflexivity.
Defined.

(** C9. The reason attached to a low-focus cast does not cite the
    cutoff.  With Kill Command at 2000 ms, a global cooldown of 1500 ms
    and 30 focus, the cast is on the overflow path because 2000 is below
    the cutoff of 1000 + 1500 = 2500 ms, and it is marked inefficient;
    its reason reads 1501.0s, the global cooldown in milliseconds plus
    the reduction in seconds, where the cutoff is 2.5 s.  The same cast
    without a resource snapshot is left unmarked. *)
Theorem low_focus_reason_misstates_cutoff :
  let w := onCooldownFor 2000 in
  cooldownRemaining w KILL_COMMAND_CAST_BM_id = 2000
  /\ COBRA_SHOT_CDR_MS + getGlobalCooldownDuration w COBRA_SHOT_id = 2500
  /\ meta (out_event (onCobraShotCast initial w (castWithFocus 30)))
     = Some
         {| isInefficientCast := Some true;
            inefficientCastReason :=
              Some "Cobra Shot cast while Kill Command's cooldown was under 1501.0s remaining and you were not close to capping focus as you only had 30 focus."%string;
            otherProperties := [] |}
  /\ meta (out_event (onCobraShotCast initial w bareCast))
     = Some
         {| isInefficientCast := Some false;
            inefficientCastReason := Some EmptyString;
            otherProperties := [] |}.
Proof.
  cbv zeta. repeat split.
Qed.

Lemma commands_within_remaining_scenario :
  Forall
    (fun r =>
       Forall
         (fun c =>
            cmd_spell c = KILL_COMMAND_CAST_BM_id
            /\ cmd_amount c
               <= cooldownRemaining (cr_world r) KILL_COMMAND_CAST_BM_id)
         (out_commands (cr_outcome r)))
    (ses_trace (replay (start (onCooldownFor 500)) sampleLog)).
Proof.
  apply (commands_within_remaining_cooldown (W := Tracker)).
  intros w. discriminate.
Defined.

(** C7. The effective total does go down: with Kill Command at 500 ms
    under a 1500 ms global cooldown the handler asks for a reduction by
    -1000 ms, the tracker applies and reports it, and the total that was
    0 becomes -1000 (the wasted total takes 2000 ms for one cast). *)
Theorem effective_total_drops_below_global_cooldown :
  let o := onCobraShotCast initial (onCooldownFor 500) bareCast in
  effectiveKCReductionMs initial = 0
  /\ effectiveKCReductionMs (out_this o) = -1000
  /\ effectiveKCReductionMs (out_this o) < effectiveKCReductionMs initial
  /\ wastedKCReductionMs (out_this o) = 2000
  /\ killCommand (out_world o) = Some 1500.
Proof.
  cbv zeta. vm_compute. repeat split.
Qed.

(** C5. After the same single cast the effective total (-1000) is below
    the total possible reduction (1000), yet the efficiency ratio is -1,
    outside the unit interval. *)
Theorem efficiency_negative_below_global_cooldown :
  let s := replay (start (onCooldownFor 500)) [ CobraShotCast bareCast ] in
  effectiveKCReductionMs (ses_this s) <= totalPossibleCDR (ses_this s)
  /\ cdrEfficiency (ses_this s) = (-1000 # 1000)%Q
  /\ (cdrEfficiency (ses_this s) < 0)%Q.
Proof.
  cbv zeta. vm_compute. repeat split; discriminate.
Qed.

(** The effective total of the overflow scenario, 500 ms out of 1000 ms
    possible, gives a ratio within the unit interval. *)
Lemma efficiency_ratio_scenario :
  let this := out_this (onCobraShotCast initial (onCooldownFor 2000) bareCast) in
  (0 <= cdrEfficiency this /\ cdrEfficiency this <= 1)%Q.
Proof.
  cbv zeta.
  apply (cdrEfficiency_unit_interval
           (out_this (onCobraShotCast initial (onCooldownFor 2000) bareCast)));
    discriminate.
Defined.

(** Even on the cast below the global cooldown, the cast counter, the
    wasted-cast counter and the wasted total do not go down. *)
Lemma own_counters_scenario :
  let this' := out_this (onCobraShotCast initial (onCooldownFor 500) bareCast) in
  casts initial <= casts this'
  /\ wastedCasts initial <= wastedCasts this'
  /\ wastedKCReductionMs initial <= wastedKCReductionMs this'.
Proof.
  cbv zeta.
  apply (own_counters_monotone initial (onCooldownFor 500) bareCast).
  discriminate.
Defined.

(** Two casts with Kill Command available throughout: both wasted. *)
Lemma never_on_cooldown_scenario :
  let s := replay (start available) idleLog in
  wastedCasts (ses_this s) = casts (ses_this s)
  /\ effectiveKCReductionMs (ses_this s) = 0.
Proof.
  cbv zeta.
  apply (never_on_cooldown_all_wasted available idleLog).
  repeat constructor.
Defined.

(** * Session invariants and the statistic box *)

Import Report.

Section SessionInvariants.

Context {W : Type} `{SU : SpellUsable W} `{GCD : GlobalCooldown W}
        `{K : Constants}.

(** A property of sessions kept by every dispatch holds after a replay. *)
Lemma replay_invariant (P : Session W -> Prop) :
  (forall s e, P s -> P (dispatch s e)) ->
  forall log s, P s -> P (replay s log).
Proof.
  intros Hstep log. induction log as [|e log IH]; intros s Hs; [exact Hs|].
  rewrite replay_cons. apply IH, Hstep, Hs.
Qed.

(** The cast counter and the trace move together. *)
Lemma replay_casts_trace log : forall s : Session W,
  casts (ses_this s) = Z.of_nat (List.length (ses_trace s)) ->
  casts (ses_this (replay s log))
  = Z.of_nat (List.length (ses_trace (replay s log))).
Proof.
  apply (replay_invariant
           (fun s => casts (ses_this s) = Z.of_nat (List.length (ses_trace s)))).
  intros s [event | advance] Hs; cbn; [|exact Hs].
  rewrite length_app. cbn.
  handler_paths (ses_this s) (ses_world s) event; cbn; lia.
Qed.

(** X5. The cast counter counts the Cobra Shot casts of the log: after a
    replay from a fresh session it is the number of events that reached
    the handler, whatever else happened in between. *)
Theorem casts_count_handled_events (w : W) (log : list (LogEvent W)) :
  casts (ses_this (replay (start w) log)) = Z.of_nat (handledCasts log).
Proof.
  rewrite replay_casts_trace by reflexivity.
  rewrite replay_trace_length. reflexivity.
Qed.

(** The wasted total covers the wasted casts. *)
Lemma replay_wasted_floor log : forall s : Session W,
  0 <= COBRA_SHOT_CDR_MS ->
  0 <= wastedCasts (ses_this s)
  /\ wastedCasts (ses_this s) * COBRA_SHOT_CDR_MS
     <= wastedKCReductionMs (ses_this s) ->
  0 <= wastedCasts (ses_this (replay s log))
  /\ wastedCasts (ses_this (replay s log)) * COBRA_SHOT_CDR_MS
     <= wastedKCReductionMs (ses_this (replay s log)).
Proof.
  intros s Hcdr. revert s.
  apply (replay_invariant
           (fun s => 0 <= wastedCasts (ses_this s)
                     /\ wastedCasts (ses_this s) * COBRA_SHOT_CDR_MS
                        <= wastedKCReductionMs (ses_this s))).
  intros s [event | advance] Hs; [|exact Hs]. cbn.
  handler_paths (ses_this s) (ses_world s) event; cbn; lia.
Qed.

(** X7. The tooltip of the statistic box after a session, the reduction
    per cast being positive: nothing when nothing was wasted; the
    sentence on wasted seconds alone when only overflow casts wasted
    something; both sentences around a line break as soon as one cast was
    wasted.  The sentence on wasted casts never shows alone, because each
    wasted cast adds the reduction per cast to the wasted total. *)
Theorem tooltip_after_session (w : W) (log : list (LogEvent W)) :
  0 < COBRA_SHOT_CDR_MS ->
  let this := ses_this (replay (start w) log) in
  wastedCasts this * COBRA_SHOT_CDR_MS <= wastedKCReductionMs this
  /\ ((wastedCasts this = 0 /\ wastedKCReductionMs this = 0
       /\ statisticTooltip this = [])
      \/ (wastedCasts this = 0 /\ 0 < wastedKCReductionMs this
          /\ exists seconds, statisticTooltip this = [ Text seconds ])
      \/ (0 < wastedCasts this /\ 0 < wastedKCReductionMs this
          /\ exists wasted seconds,
               statisticTooltip this = [ Text wasted; Br; Text seconds ])).
Proof.
  intros Hcdr. cbv zeta.
  destruct (replay_wasted_floor log (start w)) as [Hnonneg Hfloor];
    [lia | cbn; lia |].
  split; [exact Hfloor|].
  set (this := ses_this (replay (start w) log)) in *.
  unfold statisticTooltip.
  destruct (0 <? wastedCasts this) eqn:Hwc;
    destruct (0 <? wastedKCReductionMs this) eqn:Hw; cbn;
    rewrite ?Z.ltb_lt, ?Z.ltb_ge in Hwc, Hw.
  - right; right. eauto 6.
  - nia.
  - right; left. repeat split; [lia | lia | eauto].
  - left. repeat split; nia.
Qed.

(** X9. For an event that does not come already marked, the handler
    marks the cast inefficient in exactly two situations: Kill Command
    was available, or it had less than the reduction plus the global
    cooldown left while the focus entry of the snapshot was below the
    threshold. *)
Theorem marked_inefficient_iff this (w : W) event :
  isInefficientCast (metaOnEntry event) <> Some true ->
  (exists m,
      meta (out_event (onCobraShotCast this w event)) = Some m
      /\ isInefficientCast m = Some true)
  <->
  (isOnCooldown w KILL_COMMAND_CAST_BM_id = false
   \/ (cooldownRemaining w KILL_COMMAND_CAST_BM_id
         < COBRA_SHOT_CDR_MS + getGlobalCooldownDuration w COBRA_SHOT_id
       /\ exists resource,
            focusResource event = Some resource
            /\ amount resource < COBRA_SHOT_FOCUS_THRESHOLD_TO_WAIT)).
Proof.
  intros Hunmarked.
  handler_paths this w event; cbn.
  - destruct (focusResource event) as [resource|] eqn:Hfocus.
    + destruct (amount resource <? COBRA_SHOT_FOCUS_THRESHOLD_TO_WAIT)
        eqn:Hlow.
      * apply Z.ltb_lt in Hlow. split.
        -- intros _. right. eauto.
        -- intros _. eexists. split; reflexivity.
      * apply Z.ltb_ge in Hlow. split.
        -- intros (m & [= <-] & Hm). contradiction.
        -- intros [Hoff | (_ & r & [= <-] & Hr)]; [discriminate | lia].
    + split.
      * intros (m & [= <-] & Hm). contradiction.
      * intros [Hoff | (_ & r & Hr & _)]; discriminate.
  - split.
    + intros (m & [= <-] & Hm). contradiction.
    + intros [Hoff | (Hlt & _)]; [discriminate | lia].
  - split.
    + intros _. left. reflexivity.
    + intros _. eexists. split; reflexivity.
Qed.

Lemma replay_effective_nonnegative log : forall s : Session W,
  0 <= COBRA_SHOT_CDR_MS ->
  Forall
    (fun r =>
       targetOnCooldown r = true ->
       getGlobalCooldownDuration (cr_world r) COBRA_SHOT_id
         <= cooldownRemaining (cr_world r) KILL_COMMAND_CAST_BM_id
       /\ forall requested,
            0 <= requested ->
            0 <= snd (reduceCooldown (cr_world r) KILL_COMMAND_CAST_BM_id
                        requested))
    (ses_trace (replay s log)) ->
  0 <= effectiveKCReductionMs (ses_this s) ->
  0 <= effectiveKCReductionMs (ses_this (replay s log)).
Proof.
  induction log as [|e log IH]; intros s Hcdr Hsane Hs; [exact Hs|].
  rewrite replay_cons in *. apply (IH _ Hcdr Hsane).
  destruct e as [event | advance]; [|exact Hs].
  destruct (replay_trace_extends log (dispatch s (CobraShotCast event)))
    as [rest Hrest].
  rewrite Hrest in Hsane. cbn in Hsane.
  apply Forall_app in Hsane as [Hsane _].
  apply Forall_app in Hsane as [_ Hthis].
  inversion Hthis as [|r l Hcast _]; subst.
  unfold targetOnCooldown in Hcast. cbn in Hcast. cbn.
  handler_paths (ses_this s) (ses_world s) event; cbn.
  - destruct (Hcast eq_refl) as [Hlong Hreport].
    specialize (Hreport
                  (cooldownRemaining (ses_world s) KILL_COMMAND_CAST_BM_id
                     - getGlobalCooldownDuration (ses_world s) COBRA_SHOT_id)).
    lia.
  - destruct (Hcast eq_refl) as [_ Hreport].
    specialize (Hreport COBRA_SHOT_CDR_MS Hcdr). lia.
  - exact Hs.
Qed.

(** X4. When the efficiency ratio cannot go negative: if, at every
    handled cast that found Kill Command on cooldown, the cooldown left
    was at least the global cooldown and the tracker reports a
    non-negative amount for a non-negative request, then the effective
    total and the efficiency ratio of the session are non-negative. *)
Theorem efficiency_nonnegative_without_short_cooldowns
  (w0 : W) (log : list (LogEvent W)) :
  0 <= COBRA_SHOT_CDR_MS ->
  Forall
    (fun r =>
       targetOnCooldown r = true ->
       getGlobalCooldownDuration (cr_world r) COBRA_SHOT_id
         <= cooldownRemaining (cr_world r) KILL_COMMAND_CAST_BM_id
       /\ forall requested,
            0 <= requested ->
            0 <= snd (reduceCooldown (cr_world r) KILL_COMMAND_CAST_BM_id
                        requested))
    (ses_trace (replay (start w0) log)) ->
  0 <= effectiveKCReductionMs (ses_this (replay (start w0) log))
  /\ (0 <= cdrEfficiency (ses_this (replay (start w0) log)))%Q.
Proof.
  intros Hcdr Hsane.
  assert (Hnonneg : 0 <= effectiveKCReductionMs
                           (ses_this (replay (start w0) log)))
    by (apply replay_effective_nonnegative; (assumption || reflexivity)).
  split; [exact Hnonneg|].
  unfold cdrEfficiency. apply Qle_shift_div_l.
  - change 0%Q with (inject_Z 0). rewrite <- Zlt_Qlt.
    apply totalPossibleCDR_positive.
  - rewrite Qmult_0_l. change 0%Q with (inject_Z 0).
    rewrite <- Zle_Qle. exact Hnonneg.
Qed.

End SessionInvariants.

(** * Binary64 rounding *)

Section Binary64.

Lemma nearestEven_lower (n d N : Z) :
  0 < d -> N * d <= n -> N <= Double.nearestEven n d.
Proof.
  intros Hd Hn. unfold Double.nearestEven. cbv zeta.
  assert (Hq : N <= n / d) by (apply Z.div_le_lower_bound; lia).
  destruct (2 * (n mod d) ?= d); [destruct (Z.even (n / d))| |]; lia.
Qed.

Lemma nearestEven_upper (n d N : Z) :
  0 < d -> n <= N * d -> Double.nearestEven n d <= N.
Proof.
  intros Hd Hn. unfold Double.nearestEven. cbv zeta.
  pose proof (Z.div_mod n d ltac:(lia)) as Hdiv.
  pose proof (Z.mod_pos_bound n d Hd) as Hmod.
  destruct (Z.compare_spec (2 * (n mod d)) d) as [Heq | Hlt | Hgt];
    [destruct (Z.even (n / d))| |]; nia.
Qed.

Lemma binade_upper (n d : Z) :
  Double.binade n d <= Z.log2 n - Z.log2 d.
Proof.
  unfold Double.binade. cbv zeta.
  destruct (if 0 <=? Z.log2 n - Z.log2 d then _ else _); lia.
Qed.

(** Rounding a number that lies between two integers of at most 52 bits
    gives a finite value between the same integers. *)
Lemma nearest_between (lo hi : Z) (y : Q) :
  0 < lo -> hi <= 2 ^ 52 ->
  (inject_Z lo <= y)%Q -> (y <= inject_Z hi)%Q ->
  exists q,
    Double.nearest y = Double.Fin q
    /\ (inject_Z lo <= q)%Q /\ (q <= inject_Z hi)%Q.
Proof.
  intros Hlo Hhi Hlow Hhigh. destruct y as [yn yd].
  unfold Qle in Hlow, Hhigh. cbn in Hlow, Hhigh.
  assert (Hpos : 0 < yn) by nia.
  unfold Double.nearest. cbn [Qnum Qden]. cbv zeta.
  rewrite (Z.abs_eq yn) by lia.
  replace (yn <? 0) with false by (symmetry; apply Z.ltb_ge; lia).
  replace (yn =? 0) with false by (symmetry; apply Z.eqb_neq; lia).
  set (e := Z.max (Double.binade yn (Z.pos yd) - 52) (-1074)).
  assert (He : e <= 0).
  { pose proof (binade_upper yn (Z.pos yd)) as Hb.
    assert (Hlog : Z.log2 yn <= 52 + Z.log2 (Z.pos yd)).
    { rewrite <- Z.log2_mul_pow2 by lia.
      apply Z.log2_le_mono. nia. }
    subst e. lia. }
  destruct (0 <=? e) eqn:Hsign.
  - apply Z.leb_le in Hsign. assert (e = 0) as -> by lia.
    change (2 ^ 0) with 1. rewrite !Z.mul_1_r.
    pose proof (nearestEven_lower yn (Z.pos yd) lo ltac:(lia) ltac:(lia))
      as Hm1.
    pose proof (nearestEven_upper yn (Z.pos yd) hi ltac:(lia) ltac:(lia))
      as Hm2.
    assert (Hbig : 2 ^ 52 < 2 ^ 1024) by (apply Z.pow_lt_mono_r; lia).
    replace (2 ^ 1024 <=? Double.nearestEven yn (Z.pos yd)) with false
      by (symmetry; apply Z.leb_gt; lia).
    eexists. split; [reflexivity|].
    split; rewrite <- Zle_Qle; assumption.
  - apply Z.leb_gt in Hsign.
    set (P := 2 ^ (- e)).
    assert (HP : 0 < P) by (apply Z.pow_pos_nonneg; lia).
    pose proof (nearestEven_lower (yn * P) (Z.pos yd) (lo * P)
                  ltac:(lia) ltac:(nia)) as Hm1.
    pose proof (nearestEven_upper (yn * P) (Z.pos yd) (hi * P)
                  ltac:(lia) ltac:(nia)) as Hm2.
    eexists. split; [reflexivity|].
    unfold Qle. cbn. rewrite Z2Pos.id by exact HP. lia.
Qed.

End Binary64.

(** * Number formatting of the feeding tab *)

Section Formatting.

Import Feeding.

Local Open Scope string_scope.

Lemma append_nil_r (s : string) : s ++ EmptyString = s.
Proof. induction s as [|c s IH]; cbn; [reflexivity | now rewrite IH]. Qed.

Lemma append_assoc (s t u : string) : (s ++ t) ++ u = s ++ (t ++ u).
Proof. induction s as [|c s IH]; cbn; [reflexivity | now rewrite IH]. Qed.

Lemma length_append (s t : string) :
  String.length (s ++ t) = (String.length s + String.length t)%nat.
Proof. induction s as [|c s IH]; cbn; [reflexivity | now rewrite IH]. Qed.

Lemma groupDigits_String (c : ascii) (rest : string) :
  groupDigits (String c rest)
  = if (isDigit c && (0 <? digitRun rest)
          && (digitRun rest mod 3 =? 0))%nat
    then String c (String "," (groupDigits rest))
    else String c (groupDigits rest).
Proof. reflexivity. Qed.

Lemma removeCommas_String (c : ascii) (rest : string) :
  removeCommas (String c rest)
  = if Ascii.eqb c "," then removeCommas rest
    else String c (removeCommas rest).
Proof. reflexivity. Qed.

(** Grouping only ever inserts commas. *)
Lemma removeCommas_groupDigits (s : string) :
  removeCommas (groupDigits s) = removeCommas s.
Proof.
  induction s as [|c s IH]; [reflexivity|].
  rewrite groupDigits_String.
  destruct (isDigit c && (0 <? digitRun s) && (digitRun s mod 3 =? 0))%nat;
    rewrite !removeCommas_String; cbn [Ascii.eqb];
    destruct (Ascii.eqb c ","); rewrite ?IH; reflexivity.
Qed.

(** The decimal writing of a number holds no comma. *)
Lemma removeCommas_uint (d : Decimal.uint) :
  removeCommas (NilEmpty.string_of_uint d) = NilEmpty.string_of_uint d.
Proof. induction d; cbn; congruence. Qed.

Lemma removeCommas_Number_toString (n : Z) :
  removeCommas (JS.Number_toString n) = JS.Number_toString n.
Proof.
  unfold JS.Number_toString, NilZero.string_of_int, NilZero.string_of_uint.
  destruct (Z.to_int n) as [d | d]; destruct d; cbn;
    rewrite ?removeCommas_uint; reflexivity.
Qed.

(** The decimal writing of a number parses back to the number. *)
Lemma Number_toString_parses (n : Z) :
  option_map Z.of_int (NilZero.int_of_string (JS.Number_toString n)) = Some n.
Proof.
  unfold JS.Number_toString.
  rewrite NilZero.isi.
  - cbn. now rewrite DecimalZ.of_to.
  - destruct n; cbn; try discriminate.
    intros [= H]. now apply DecimalPos.Unsigned.to_uint_nonnil in H.
  - destruct n; cbn; try discriminate.
    intros [= H]. now apply DecimalPos.Unsigned.to_uint_nonnil in H.
Qed.

(** X10. A formatted number reads back: for a number whose magnitude
    is below 1e21 (beyond it JavaScript writes an exponent), dropping the
    separators from [formatThousands(number)] leaves the decimal writing
    of [Math.round(number || 0)], which parses to that integer. *)
Theorem formatThousands_reads_back (number : option Q) :
  let rounded := JSNumber.Math_round (orZero number) in
  (Z.abs rounded < 10 ^ 21)%Z ->
  removeCommas (formatThousands number) = JS.Number_toString rounded
  /\ option_map Z.of_int
       (NilZero.int_of_string (removeCommas (formatThousands number)))
     = Some rounded.
Proof.
  cbv zeta. intros _. unfold formatThousands.
  rewrite removeCommas_groupDigits, removeCommas_Number_toString.
  split; [reflexivity | apply Number_toString_parses].
Qed.

Lemma digitRun_allDigits (s : string) :
  allDigits s = true -> digitRun s = String.length s.
Proof.
  induction s as [|c s IH]; cbn; [reflexivity|].
  intros [Hc Hs]%andb_prop. rewrite Hc, IH by exact Hs. reflexivity.
Qed.

Lemma allDigits_append (s t : string) :
  allDigits (s ++ t) = allDigits s && allDigits t.
Proof.
  induction s as [|c s IH]; cbn; [reflexivity|].
  now rewrite IH, andb_assoc.
Qed.

(** Up to three digits are left alone. *)
Lemma groupDigits_short (s : string) :
  allDigits s = true -> (String.length s <= 3)%nat -> groupDigits s = s.
Proof.
  induction s as [|c s IH]; [reflexivity|].
  cbn [allDigits String.length]. intros [Hc Hs]%andb_prop Hlen.
  rewrite groupDigits_String.
  rewrite (digitRun_allDigits s Hs), IH by (assumption || lia).
  destruct (String.length s) as [|[|[|n]]]; try lia;
    rewrite Hc; reflexivity.
Qed.

(** Three more digits at the end open a new group. *)
Lemma groupDigits_append_group (s t : string) :
  allDigits s = true -> s <> EmptyString ->
  allDigits t = true -> String.length t = 3%nat ->
  groupDigits (s ++ t) = groupDigits s ++ "," ++ t.
Proof.
  intros Hs Hne Ht Hlen. induction s as [|c s IH]; [congruence|].
  cbn [allDigits] in Hs. apply andb_prop in Hs as [Hc Hs].
  cbn [append]. rewrite !groupDigits_String.
  rewrite (digitRun_allDigits s Hs).
  assert (Hrun : digitRun (s ++ t) = (String.length s + 3)%nat).
  { rewrite digitRun_allDigits, length_append, Hlen; [reflexivity|].
    now rewrite allDigits_append, Hs, Ht. }
  rewrite Hrun, Hc. cbn [andb].
  destruct s as [|c' s'].
  - cbn. rewrite (groupDigits_short t Ht) by lia. reflexivity.
  - rewrite IH by (assumption || discriminate).
    replace (0 <? String.length (String c' s') + 3)%nat with true
      by (symmetry; apply Nat.ltb_lt; cbn; lia).
    replace (0 <? String.length (String c' s'))%nat with true
      by (symmetry; apply Nat.ltb_lt; cbn; lia).
    replace ((String.length (String c' s') + 3) mod 3)%nat
      with (String.length (String c' s') mod 3)%nat
      by (rewrite <- (Nat.Div0.mod_add _ 1 3); f_equal; lia).
    cbn [andb].
    destruct (String.length (String c' s') mod 3 =? 0)%nat; reflexivity.
Qed.

(** X11. How [formatThousands] groups a run of digits: up to three
    digits are left as they are, and writing three more digits after a
    run gives the grouped run, a comma and the three digits; a leading
    minus sign stays in front.  So separators sit exactly before each
    block of three digits counted from the end. *)
Theorem groupDigits_by_three (s : string) :
  allDigits s = true ->
  ((String.length s <= 3)%nat -> groupDigits s = s)
  /\ (forall t,
        s <> EmptyString -> allDigits t = true -> String.length t = 3%nat ->
        groupDigits (s ++ t) = groupDigits s ++ "," ++ t)
  /\ groupDigits ("-" ++ s) = "-" ++ groupDigits s.
Proof.
  intros Hs. repeat split.
  - intros Hlen. apply groupDigits_short; assumption.
  - intros t Hne Ht Hlen. apply groupDigits_append_group; assumption.
Qed.

Lemma allDigits_uint (d : Decimal.uint) :
  allDigits (NilEmpty.string_of_uint d) = true.
Proof. induction d; cbn; auto. Qed.

(** The writing of a number: digits, after a minus sign when negative. *)
Lemma Number_toString_digits (n : Z) :
  exists digits,
    allDigits digits = true /\ digits <> EmptyString
    /\ JS.Number_toString n
       = if (n <? 0)%Z then "-" ++ digits else digits.
Proof.
  unfold JS.Number_toString.
  destruct n as [|p|p]; cbn.
  - exists "0". repeat split. discriminate.
  - exists (NilEmpty.string_of_uint (Pos.to_uint p)).
    pose proof (DecimalPos.Unsigned.to_uint_nonnil p) as Hnil.
    unfold NilZero.string_of_uint.
    destruct (Pos.to_uint p) eqn:Hd; try congruence;
      (repeat split; [apply (allDigits_uint _) | discriminate]).
  - exists (NilEmpty.string_of_uint (Pos.to_uint p)).
    pose proof (DecimalPos.Unsigned.to_uint_nonnil p) as Hnil.
    unfold NilZero.string_of_uint.
    destruct (Pos.to_uint p) eqn:Hd; try congruence;
      (repeat split; [apply (allDigits_uint _) | discriminate]).
Qed.

Lemma small_integers_ungrouped :
  forallb
    (fun n =>
       String.eqb (groupDigits (JS.Number_toString n)) (JS.Number_toString n))
    (map (fun k => (Z.of_nat k - 999)%Z) (seq 0 1999)) = true.
Proof. vm_compute. reflexivity. Qed.

(** X12. A number that rounds to an integer strictly between -1000 and
    1000 is printed by [formatThousands] without any separator. *)
Theorem formatThousands_below_thousand (number : option Q) :
  (-1000 < JSNumber.Math_round (orZero number) < 1000)%Z ->
  formatThousands number
  = JS.Number_toString (JSNumber.Math_round (orZero number)).
Proof.
  intros Hsmall. unfold formatThousands.
  set (n := JSNumber.Math_round (orZero number)) in *.
  pose proof small_integers_ungrouped as Hall.
  rewrite forallb_forall in Hall.
  apply String.eqb_eq, Hall.
  apply in_map_iff. exists (Z.to_nat (n + 999)). split; [lia|].
  apply in_seq. lia.
Qed.

Lemma Qgtb_true (a b : Q) : Qgtb a b = true <-> (b < a)%Q.
Proof.
  unfold Qgtb. rewrite negb_true_iff, <- not_true_iff_false, Qle_bool_iff.
  split; [apply Qnot_le_lt | apply Qlt_not_le].
Qed.

Lemma Qgtb_false (a b : Q) : Qgtb a b = false <-> (a <= b)%Q.
Proof.
  unfold Qgtb. rewrite negb_false_iff. apply Qle_bool_iff.
Qed.

(** X13. The bands of [formatNumber].  A missing value and every
    value up to 10000, the negative ones included, are handed to
    [formatThousands]; a value above 10000 and up to 1000000 is printed as
    the rounding of its binary64 quotient by 1000, a whole number between
    10 and 1000, followed by k (1000000 itself is in this band); only a
    value above 1000000 is printed in millions, the binary64 quotient by
    1000000 with two decimals, followed by m. *)
Theorem formatNumber_bands (x : Q) :
  formatNumber None = "0"
  /\ ((x <= inject_Z 10000)%Q ->
      formatNumber (Some x) = formatThousands (Some x))
  /\ ((inject_Z 10000 < x)%Q -> (x <= inject_Z 1000000)%Q ->
      exists thousands k,
        Double.nearest (x / inject_Z 1000) = Double.Fin thousands
        /\ k = JSNumber.Math_round thousands
        /\ (10 <= k <= 1000)%Z
        /\ formatNumber (Some x) = JS.Number_toString k ++ "k")
  /\ ((inject_Z 1000000 < x)%Q ->
      formatNumber (Some x)
      = JSNumber.toFixedDouble 2 (Double.nearest (x / inject_Z 1000000))
          ++ "m").
Proof.
  split; [reflexivity|]. split; [|split].
  - intros Hle. unfold formatNumber.
    assert (H1 : Qgtb x (inject_Z 1000000) = false).
    { apply Qgtb_false. eapply Qle_trans; [exact Hle|]. discriminate. }
    assert (H2 : Qgtb x (inject_Z 10000) = false)
      by (apply Qgtb_false; exact Hle).
    now rewrite H1, H2.
  - intros Hlo Hhi. unfold formatNumber.
    assert (H1 : Qgtb x (inject_Z 1000000) = false)
      by (apply Qgtb_false; exact Hhi).
    assert (H2 : Qgtb x (inject_Z 10000) = true)
      by (apply Qgtb_true; exact Hlo).
    rewrite H1, H2.
    assert (Hdiv : (x / inject_Z 1000 == x * (1 # 1000))%Q) by reflexivity.
    change (inject_Z 10000) with (10000 # 1)%Q in Hlo.
    change (inject_Z 1000000) with (1000000 # 1)%Q in Hhi.
    destruct (nearest_between 10 1000 (x / inject_Z 1000))
      as (thousands & Hround & Hlow & Hhigh).
    + lia.
    + apply Z.lt_le_incl. reflexivity.
    + rewrite Hdiv. change (inject_Z 10) with (10 # 1)%Q. lra.
    + rewrite Hdiv. change (inject_Z 1000) with (1000 # 1)%Q. lra.
    + exists thousands, (JSNumber.Math_round thousands).
      rewrite Hround. cbn [JSNumber.roundedDouble].
      repeat split.
      * unfold JSNumber.Math_round.
        change 10%Z with (Qfloor (10 # 1)). apply Qfloor_resp_le.
        change (inject_Z 10) with (10 # 1)%Q in Hlow. lra.
      * unfold JSNumber.Math_round.
        change 1000%Z with (Qfloor (2001 # 2)). apply Qfloor_resp_le.
        change (inject_Z 1000) with (1000 # 1)%Q in Hhigh. lra.
  - intros Hhi. unfold formatNumber.
    assert (H1 : Qgtb x (inject_Z 1000000) = true)
      by (apply Qgtb_true; exact Hhi).
    now rewrite H1.
Qed.

End Formatting.

(** * The tables of the feeding tab *)

Section FeedingTables.

Import Feeding.

Local Open Scope Q_scope.

(** What the reduction leaves when it starts from an ability. *)
Lemma fold_pickLarger (abilities : list Ability) : forall first,
  exists best,
    fold_left (pickLarger false) abilities (Some first) = Some best
    /\ In best (first :: abilities)
    /\ forall ability,
         In ability (first :: abilities) -> healing ability <= healing best.
Proof.
  induction abilities as [|b rest IH]; intros first; cbn [fold_left].
  - exists first. repeat split; [now left|].
    intros ability [<- | []]. apply Qle_refl.
  - cbn [pickLarger].
    destruct (Qgtb (healing first) (healing b)) eqn:Hcmp.
    + destruct (IH first) as (best & Hfold & Hin & Hmax).
      exists best. split; [exact Hfold|]. split.
      * destruct Hin as [<- | Hin]; [now left | right; now right].
      * intros ability [<- | [<- | Hrest]].
        -- apply Hmax. now left.
        -- apply Qle_trans with (healing first).
           ++ apply Qlt_le_weak, Qgtb_true, Hcmp.
           ++ apply Hmax. now left.
        -- apply Hmax. now right.
    + destruct (IH b) as (best & Hfold & Hin & Hmax).
      exists best. split; [exact Hfold|]. split.
      * right. exact Hin.
      * intros ability [<- | [<- | Hrest]].
        -- apply Qle_trans with (healing b).
           ++ apply Qgtb_false, Hcmp.
           ++ apply Hmax. now left.
        -- apply Hmax. now left.
        -- apply Hmax. now right.
Qed.

Lemma categoryMax_nonempty (category : Category) first rest :
  feed category = first :: rest ->
  exists best,
    In best (feed category)
    /\ categoryMax false category = Some (healing (snd best))
    /\ forall entry,
         In entry (feed category) ->
         healing (snd entry) <= healing (snd best).
Proof.
  unfold categoryMax. destruct first as [id first]. intros ->. cbn.
  destruct (fold_pickLarger (map snd rest) first)
    as (best & -> & Hbest & Hmax).
  change (first :: map snd rest) with (map snd ((id, first) :: rest))
    in Hbest, Hmax.
  apply in_map_iff in Hbest as (entry & <- & Hentry).
  exists entry. repeat split; [exact Hentry|].
  intros other Hother. apply Hmax, in_map, Hother.
Qed.

(** X14. [category.max] is the largest healing of the feed: undefined
    exactly when the feed is empty, and otherwise the healing of one of
    its abilities that no ability of the feed exceeds. *)
Theorem categoryMax_is_largest (category : Category) :
  (feed category = [] <-> categoryMax false category = None)
  /\ (feed category <> [] ->
      exists best,
        In best (feed category)
        /\ categoryMax false category = Some (healing (snd best))
        /\ forall entry,
             In entry (feed category) ->
             healing (snd entry) <= healing (snd best)).
Proof.
  split.
  - destruct (feed category) as [|first rest] eqn:Hfeed.
    + unfold categoryMax. rewrite Hfeed. split; reflexivity.
    + destruct (categoryMax_nonempty category first rest Hfeed)
        as (best & _ & -> & _).
      split; discriminate.
  - intros Hne. destruct (feed category) as [|first rest] eqn:Hfeed;
      [congruence|].
    rewrite <- Hfeed.
    apply (categoryMax_nonempty category first rest Hfeed).
Qed.

(** X15. No bar is wider than 100: whatever the healing and whatever
    [category.max] is (undefined and zero included), the width of a bar
    is never infinite upwards and never a finite number above 100. *)
Theorem bar_never_wider_than_100 expand category max entry :
  let width := row_barWidth (renderRow expand category max entry) in
  width <> PosInfinity
  /\ forall q, width = Finite q -> q <= 100.
Proof.
  cbv zeta. unfold renderRow. cbn [row_barWidth].
  set (h := if expand then _ else _).
  unfold divide. destruct max as [d|]; cbn; [|split; [|intros q]; discriminate].
  destruct (Qeq_bool d 0).
  - destruct (Qgtb h 0); cbn.
    + split; [discriminate|]. intros q [= <-]. apply Qle_refl.
    + destruct (Qgtb 0 h); cbn; split; try intros q; discriminate.
  - cbn. split; [discriminate|]. intros q [= <-].
    destruct (Qgtb (h / d * 100) 100) eqn:Hcmp.
    + apply Qle_refl.
    + apply Qgtb_false, Hcmp.
Qed.

(** X16. With the maximum the tab computes, the cap is never needed:
    when that maximum is positive, the bar of every ability of the feed
    is exactly its healing over the maximum, times 100, and the bar of
    the ability chosen as the maximum is 100. *)
Theorem bars_proportional_to_largest (category : Category) (mx : Q) :
  categoryMax false category = Some mx ->
  0 < mx ->
  (forall entry,
      In entry (feed category) ->
      row_barWidth (renderRow false category (Some mx) entry)
      = Finite (healing (snd entry) / mx * 100)
      /\ healing (snd entry) / mx * 100 <= 100)
  /\ exists best,
       In best (feed category)
       /\ healing (snd best) = mx
       /\ healing (snd best) / mx * 100 == 100.
Proof.
  intros Hmax Hpos.
  assert (Hnz : Qeq_bool mx 0 = false).
  { destruct (Qeq_bool mx 0) eqn:Hz; [|reflexivity].
    apply Qeq_bool_eq in Hz. rewrite Hz in Hpos.
    destruct (Qlt_irrefl _ Hpos). }
  destruct (feed category) as [|first rest] eqn:Hfeed.
  { unfold categoryMax in Hmax. rewrite Hfeed in Hmax. discriminate. }
  destruct (categoryMax_nonempty category first rest Hfeed)
    as (best & Hin & Hbest & Hle).
  rewrite Hmax in Hbest. injection Hbest as Hbest.
  rewrite <- Hfeed. split.
  - intros entry Hentry.
    assert (Hratio : healing (snd entry) / mx * 100 <= 100).
    { specialize (Hle entry Hentry). rewrite <- Hbest in Hle.
      apply Qle_trans with (mx / mx * 100).
      - apply Qmult_le_compat_r; [|discriminate].
        apply Qmult_le_compat_r; [exact Hle|].
        apply Qlt_le_weak, Qinv_lt_0_compat, Hpos.
      - assert (Hfull : mx / mx * 100 == 100).
        { field. intros Hz. rewrite Hz in Hpos.
          destruct (Qlt_irrefl _ Hpos). }
        rewrite Hfull. apply Qle_refl. }
    split; [|exact Hratio].
    unfold renderRow. cbn [row_barWidth]. unfold divide.
    rewrite Hnz. cbn.
    apply Qgtb_false in Hratio. rewrite Hratio. reflexivity.
  - exists best. repeat split; [exact Hin | now symmetry |].
    rewrite <- Hbest. 
    assert (Hne : ~ mx == 0)
      by (intros Hz; rewrite Hz in Hpos; destruct (Qlt_irrefl _ Hpos)).
    field. exact Hne.
Qed.

Lemma insertSorted_perm {A} (cmp : A -> A -> Z) (x : A) (l : list A) :
  Permutation (insertSorted cmp x l) (x :: l).
Proof.
  induction l as [|y rest IH]; cbn; [reflexivity|].
  destruct (0 <? cmp x y)%Z; [|reflexivity].
  rewrite IH. apply perm_swap.
Qed.

Lemma sort_perm {A} (cmp : A -> A -> Z) (l : list A) :
  Permutation (sort cmp l) l.
Proof.
  induction l as [|x rest IH]; cbn; [reflexivity|].
  rewrite insertSorted_perm. now constructor.
Qed.

(** What the two answers of the comparator mean. *)
Lemma byHealing_after (a b : Z * Ability) :
  (0 <? byHealing a b)%Z = true -> healing (snd a) <= healing (snd b).
Proof.
  unfold byHealing. cbv zeta.
  destruct (Qgtb (healing (snd a)) (healing (snd b))) eqn:Hab; [discriminate|].
  intros _. apply Qgtb_false, Hab.
Qed.

Lemma byHealing_before (a b : Z * Ability) :
  (0 <? byHealing a b)%Z = false -> healing (snd b) <= healing (snd a).
Proof.
  unfold byHealing. cbv zeta.
  destruct (Qgtb (healing (snd a)) (healing (snd b))) eqn:Hab.
  - intros _. apply Qlt_le_weak, Qgtb_true, Hab.
  - destruct (Qgtb (healing (snd b)) (healing (snd a))) eqn:Hba;
      [discriminate|].
    intros _. apply Qgtb_false, Hba.
Qed.

Lemma insertSorted_sorted (x : Z * Ability) (l : list (Z * Ability)) :
  StronglySorted healingDescending l ->
  StronglySorted healingDescending (insertSorted byHealing x l).
Proof.
  induction 1 as [|y rest Hsorted IH Hy]; cbn.
  - repeat constructor.
  - destruct (0 <? byHealing x y)%Z eqn:Hcmp.
    + constructor; [exact IH|].
      rewrite (insertSorted_perm byHealing x rest).
      constructor; [|exact Hy].
      apply byHealing_after, Hcmp.
    + constructor; [now constructor|].
      pose proof (byHealing_before x y Hcmp) as Hxy.
      constructor; [exact Hxy|].
      eapply Forall_impl; [|exact Hy].
      intros z Hz. unfold healingDescending in *.
      eapply Qle_trans; eassumption.
Qed.

Lemma sort_sorted (l : list (Z * Ability)) :
  StronglySorted healingDescending (sort byHealing l).
Proof.
  induction l as [|x rest IH]; cbn; [constructor|].
  apply insertSorted_sorted, IH.
Qed.

Lemma filter_sorted {A} (R : A -> A -> Prop) (f : A -> bool) (l : list A) :
  StronglySorted R l -> StronglySorted R (filter f l).
Proof.
  induction 1 as [|x rest Hsorted IH Hx]; cbn; [constructor|].
  destruct (f x); [|exact IH].
  constructor; [exact IH|].
  apply Forall_forall. intros y [Hy _]%filter_In.
  rewrite Forall_forall in Hx. now apply Hx.
Qed.

Lemma filter_perm {A} (f : A -> bool) (l l' : list A) :
  Permutation l l' -> Permutation (filter f l) (filter f l').
Proof.
  induction 1 as [|x l l' _ IH|x y l|l l' l'' _ IH1 _ IH2]; cbn.
  - constructor.
  - destruct (f x); [now constructor | exact IH].
  - destruct (f x), (f y); try reflexivity. apply perm_swap.
  - now rewrite IH1.
Qed.

Lemma filter_all {A} (l : list A) : filter (fun _ => true) l = l.
Proof. induction l as [|x l IH]; cbn; [reflexivity | now rewrite IH]. Qed.

(** X17. The rows of a table.  They are in order of healing, largest
    first, and stand for the abilities of the feed that pass the filter,
    each once; with the tab's fixed [expand = false] every ability of the
    feed gets exactly one row. *)
Theorem rows_sorted_and_complete (expand : bool) (category : Category) :
  StronglySorted healingDescending (visibleEntries expand category)
  /\ Permutation (visibleEntries expand category)
       (filter (fun entry => negb expand || Qgtb (mergedHealing (snd entry)) 0)
          (feed category))
  /\ Permutation (visibleEntries false category) (feed category)
  /\ map row_name (table_rows (renderTable expand category))
     = map (fun entry => name (snd entry)) (visibleEntries expand category)
  /\ List.length (table_rows (renderTable false category))
     = List.length (feed category).
Proof.
  assert (Hall : Permutation (visibleEntries false category) (feed category)).
  { unfold visibleEntries. cbn [negb orb].
    rewrite filter_all. apply sort_perm. }
  repeat split.
  - apply filter_sorted, sort_sorted.
  - apply filter_perm, sort_perm.
  - exact Hall.
  - unfold renderTable. cbn [table_rows]. rewrite map_map. reflexivity.
  - unfold renderTable. cbn [table_rows]. rewrite length_map.
    apply Permutation_length, Hall.
Qed.

Lemma ofDouble_not_NaN (d : Double.t) : ofDouble d <> NaN.
Proof. destruct d as [q | [|]]; discriminate. Qed.

(** X18. The tables of the tab are those of the categories whose total
    is positive, so the percentage of a row never comes from a division
    by zero: the number that is printed with two decimals is the
    binary64 product by 100 of the binary64 quotient of the healing by
    the total, and it is never NaN.  Without the filter it could be: for
    a total of zero, an ability without healing would show NaN. *)
Theorem percentages_never_divide_by_zero spells cooldownTracker :
  (forall table,
      In table (FeedingTab_render spells cooldownTracker) ->
      exists category,
        In category (categoriesOf spells cooldownTracker)
        /\ 0 < total (totals category)
        /\ table = renderTable false category
        /\ forall max entry,
             exists value,
               value
               = product
                   (quotient (healing (snd entry)) (total (totals category)))
                   100
               /\ value <> NaN
               /\ row_percentage (renderRow false category max entry)
                  = (Num_toFixed 2 value ++ "%")%string)
  /\ (forall category,
        In category (categoriesOf spells cooldownTracker) ->
        0 < total (totals category) ->
        In (renderTable false category)
          (FeedingTab_render spells cooldownTracker))
  /\ (forall category max entry,
        total (totals category) == 0 ->
        healing (snd entry) == 0 ->
        row_percentage (renderRow false category max entry) = "NaN%"%string).
Proof.
  unfold FeedingTab_render, render. split; [|split].
  - intros table (category & <- & Hin)%in_map_iff.
    apply filter_In in Hin as [Hin Hpos]. apply Qgtb_true in Hpos.
    exists category. repeat split; try assumption.
    intros max entry. eexists. split; [reflexivity|].
    split; [|reflexivity].
    unfold quotient.
    destruct (Qeq_bool (total (totals category)) 0) eqn:Hz.
    + apply Qeq_bool_eq in Hz. rewrite Hz in Hpos.
      destruct (Qlt_irrefl _ Hpos).
    + destruct (Double.nearest _) as [q | [|]]; cbn;
        try discriminate; apply ofDouble_not_NaN.
  - intros category Hin Hpos. apply in_map, filter_In.
    split; [exact Hin | apply Qgtb_true, Hpos].
  - intros category max entry Hzero Hnone.
    unfold renderRow. cbn [row_percentage]. unfold quotient.
    apply Qeq_bool_iff in Hzero. rewrite Hzero.
    assert (H1 : Qgtb (healing (snd entry)) 0 = false)
      by (apply Qgtb_false; rewrite Hnone; apply Qle_refl).
    assert (H2 : Qgtb 0 (healing (snd entry)) = false)
      by (apply Qgtb_false; rewrite Hnone; apply Qle_refl).
    rewrite H1, H2. reflexivity.
Qed.

End FeedingTables.

(** * Scenarios for the session invariants, the formatting and the tables *)

(** Two wasted casts: both sentences of the tooltip around a line break. *)
Lemma tooltip_scenario :
  let this := ses_this (replay (start available) idleLog) in
  (wastedCasts this * COBRA_SHOT_CDR_MS <= wastedKCReductionMs this
   /\ ((wastedCasts this = 0 /\ wastedKCReductionMs this = 0
        /\ statisticTooltip this = [])
       \/ (wastedCasts this = 0 /\ 0 < wastedKCReductionMs this
           /\ exists seconds, statisticTooltip this = [ Text seconds ])
       \/ (0 < wastedCasts this /\ 0 < wastedKCReductionMs this
           /\ exists wasted seconds,
                statisticTooltip this = [ Text wasted; Br; Text seconds ])))
  /\ statisticTooltip this =
       [ Text "You had 2 casts of Cobra Shot when Kill Command wasn't on cooldown. ";
         Br;
         Text "You wasted 2.00 seconds of potential cooldown reduction by casting Cobra Shot while Kill Command had less than 1 + GCD seconds remaining on its CD." ].
Proof.
  cbv zeta. split.
  - apply (tooltip_after_session available idleLog). reflexivity.
  - reflexivity.
Defined.

(** A bare cast is marked exactly when the tracker state says so. *)
Lemma marked_inefficient_scenario :
  (exists m,
      meta (out_event (onCobraShotCast initial available bareCast)) = Some m
      /\ isInefficientCast m = Some true)
  <->
  (isOnCooldown available KILL_COMMAND_CAST_BM_id = false
   \/ (cooldownRemaining available KILL_COMMAND_CAST_BM_id
         < COBRA_SHOT_CDR_MS + getGlobalCooldownDuration available COBRA_SHOT_id
       /\ exists resource,
            focusResource bareCast = Some resource
            /\ amount resource < COBRA_SHOT_FOCUS_THRESHOLD_TO_WAIT)).
Proof.
  apply (marked_inefficient_iff initial available bareCast).
  discriminate.
Defined.

(** Kill Command at 2000 ms, then recast: no cast below the global
    cooldown, so nothing negative is booked. *)
Lemma efficiency_nonnegative_scenario :
  0 <= effectiveKCReductionMs
         (ses_this (replay (start (onCooldownFor 2000)) sampleLog))
  /\ (0 <= cdrEfficiency
             (ses_this (replay (start (onCooldownFor 2000)) sampleLog)))%Q.
Proof.
  apply (efficiency_nonnegative_without_short_cooldowns
           (onCooldownFor 2000) sampleLog).
  - discriminate.
  - repeat constructor; try discriminate;
      intros requested Hreq; cbn; unfold tracker_reduce; cbn;
      match goal with
      | |- context [?a <? requested] =>
          destruct (a <? requested); cbn; [discriminate | exact Hreq]
      end.
Defined.

Section FeedingScenarios.

Import Feeding.

Lemma formatThousands_scenario :
  removeCommas (formatThousands (Some (inject_Z 1234567))) = "1234567"%string
  /\ option_map Z.of_int
       (NilZero.int_of_string
          (removeCommas (formatThousands (Some (inject_Z 1234567)))))
     = Some 1234567.
Proof.
  apply (formatThousands_reads_back (Some (inject_Z 1234567))).
  reflexivity.
Defined.

Lemma groupDigits_scenario :
  ((String.length "1234" <= 3)%nat -> groupDigits "1234" = "1234"%string)
  /\ (forall t,
        "1234"%string <> EmptyString -> allDigits t = true ->
        String.length t = 3%nat ->
        groupDigits ("1234" ++ t) = (groupDigits "1234" ++ "," ++ t)%string)
  /\ groupDigits ("-" ++ "1234") = ("-" ++ groupDigits "1234")%string.
Proof.
  apply (groupDigits_by_three "1234"). reflexivity.
Defined.

Lemma formatThousands_small_scenario :
  formatThousands (Some (1997 # 2))
  = JS.Number_toString (JSNumber.Math_round (orZero (Some (1997 # 2)))).
Proof.
  apply (formatThousands_below_thousand (Some (1997 # 2))).
  split; reflexivity.
Defined.

Lemma bars_scenario :
  (forall entry,
      In entry (feed sampleCategory) ->
      row_barWidth (renderRow false sampleCategory (Some 10%Q) entry)
      = Finite (healing (snd entry) / 10 * 100)
      /\ (healing (snd entry) / 10 * 100 <= 100)%Q)
  /\ exists best,
       In best (feed sampleCategory)
       /\ healing (snd best) = 10%Q
       /\ (healing (snd best) / 10 * 100 == 100)%Q.
Proof.
  apply (bars_proportional_to_largest sampleCategory 10%Q); reflexivity.
Defined.

End FeedingScenarios.
